(** * TaskFlow: the reconciling task store and the server's real-time core

    A shallow embedding of
    - [src/store/taskStore.ts]  (the zustand store: createTask, updateTask,
      deleteTask, moveTask),
    - [server/models/Notification.js] (the notification schema),
    - the server entry point (the deadline checker and the socket.io
      connection handler),
    followed by the properties of the synchronisation engine that the
    specification states about them. *)

From Stdlib Require Import ZArith Lia.
From stdpp Require Import base strings list gmap pretty.

Local Open Scope string_scope.
Local Open Scope Z_scope.

(** ** JavaScript helpers *)

(** [a || b] on possibly-missing strings: the empty string and [undefined]
    are falsy. *)
Definition js_or (a b : option string) : option string :=
  match a with
  | Some s => if bool_decide (s = "") then b else a
  | None => b
  end.

(** The double-quote character, as a one-character string. *)
Definition dquote : string := String (Ascii.ascii_of_nat 34) EmptyString.

(** A missing value used as a property key is the key ["undefined"]. *)
Definition js_key (k : option string) : string := default "undefined" k.

(** [l.splice(start, 0, x)]: a negative [start] counts from the end, and the
    insertion point is clamped to [0 .. l.length]. *)
Definition splice_insert {A} (start : Z) (x : A) (l : list A) : list A :=
  let len := Z.of_nat (length l) in
  let k := if start <? 0 then Z.max (len + start) 0 else Z.min start len in
  (take (Z.to_nat k) l ++ x :: drop (Z.to_nat k) l)%list.

(** [l.filter(id => id !== x)] *)
Definition without (x : string) (l : list string) : list string :=
  filter (λ y, y ≠ x) l.

(** [l.map(id => id === a ? b : id)] *)
Definition replace_id (a b : string) (l : list string) : list string :=
  map (λ y, if bool_decide (y = a) then b else y) l.

(** ** Data model ([src/types/task.ts]) *)

Module Column.
Record t := mk {
  id : string;
  title : string;
  taskIds : list string;
  position : Z
}.
Definition with_taskIds (c : t) (ids : list string) : t :=
  mk (id c) (title c) ids (position c).
End Column.

Module Board.
Record t := mk {
  id : string;
  title : string;
  columns : list Column.t;
  ownerId : string
}.
Definition with_columns (b : t) (cols : list Column.t) : t :=
  mk (id b) (title b) cols (ownerId b).
End Board.

(** A task object as the store reads it. At run time every property of a
    JavaScript object may be absent ([createTask] takes [data: any]), so
    each field is optional: [None] is what reading gives when the property is
    missing or holds [undefined] or [null], which the store's own reads
    ([||], [===] with a string, a lookup by [boardId]) do not tell apart.
    Instants are kept as milliseconds. *)
Module Task.
Record t := mk {
  _id : option string;
  id : option string;
  title : option string;
  description : option string;
  status : option string;
  dueDate : option Z;
  createdAt : option Z;
  updatedAt : option Z;
  columnId : option string;
  boardId : option string;
  position : option Z
}.

Definition empty : t :=
  mk None None None None None None None None None None None.

Definition over {A} (patch base : option A) : option A :=
  match patch with Some v => Some v | None => base end.

(** [{ ...base, ...patch }] *)
Definition spread (base patch : t) : t :=
  mk (over (_id patch) (_id base)) (over (id patch) (id base))
     (over (title patch) (title base))
     (over (description patch) (description base))
     (over (status patch) (status base))
     (over (dueDate patch) (dueDate base))
     (over (createdAt patch) (createdAt base))
     (over (updatedAt patch) (updatedAt base))
     (over (columnId patch) (columnId base))
     (over (boardId patch) (boardId base))
     (over (position patch) (position base)).
End Task.

(** A property of an object that is spread over a stored task: the
    [updates] of [updateTask], the payload of a socket event, an object
    literal. The key may be missing, or it may hold [undefined], [null] or a
    value, and a key that is there wins over the stored one whatever it
    holds. *)
Module Js.
Inductive prop (A : Type) :=
| missing
| undefined
| null
| val (a : A).
Arguments missing {A}.
Arguments undefined {A}.
Arguments null {A}.
Arguments val {A} a.

(** [o.key]: a missing key reads as [undefined]. *)
Definition get {A} (p : prop A) : prop A :=
  match p with missing => undefined | _ => p end.

(** The property as a stored task keeps it. *)
Definition read {A} (p : prop A) : option A :=
  match p with val a => Some a | _ => None end.

(** [{ ...base, ...patch }], one key at a time. *)
Definition over {A} (patch : prop A) (base : option A) : option A :=
  match patch with missing => base | _ => read patch end.

(** [a || b] on strings that may be missing: the empty string, [null] and
    [undefined] are falsy. *)
Definition or (a b : prop string) : prop string :=
  match a with
  | val s => if bool_decide (s = "") then get b else a
  | _ => get b
  end.

(** The property used as a key of an object. *)
Definition key (p : prop string) : string :=
  match p with
  | val s => s
  | null => "null"
  | _ => "undefined"
  end.

(** [p === c], where [c] is a state field that holds a string or [null]. *)
Definition same (p : prop string) (c : option string) : bool :=
  match p, c with
  | val x, Some y => bool_decide (x = y)
  | null, None => true
  | _, _ => false
  end.

(** The engine's message for reading [key] of [undefined] (V8's wording). *)
Definition reading_undefined (key : string) : string :=
  "Cannot read properties of undefined (reading '" +:+ key +:+ "')".
End Js.

(** An object with the keys of a task, each of them there or not. *)
Module Payload.
Record t := mk {
  _id : Js.prop string;
  id : Js.prop string;
  title : Js.prop string;
  description : Js.prop string;
  status : Js.prop string;
  dueDate : Js.prop Z;
  createdAt : Js.prop Z;
  updatedAt : Js.prop Z;
  columnId : Js.prop string;
  boardId : Js.prop string;
  position : Js.prop Z
}.

(** [{ ...base, ...patch }] *)
Definition merge (base : Task.t) (patch : t) : Task.t :=
  Task.mk (Js.over (_id patch) (Task._id base))
    (Js.over (id patch) (Task.id base))
    (Js.over (title patch) (Task.title base))
    (Js.over (description patch) (Task.description base))
    (Js.over (status patch) (Task.status base))
    (Js.over (dueDate patch) (Task.dueDate base))
    (Js.over (createdAt patch) (Task.createdAt base))
    (Js.over (updatedAt patch) (Task.updatedAt base))
    (Js.over (columnId patch) (Task.columnId base))
    (Js.over (boardId patch) (Task.boardId base))
    (Js.over (position patch) (Task.position base)).
End Payload.

(** ** The store ([TaskState]) *)

Record TaskState := mkState {
  boards : list Board.t;
  publicBoards : list Board.t;
  tasks : gmap string Task.t;
  currentBoardId : option string;
  loading : bool;
  error : option string
}.

(** The projection the specification speaks about: the task map and the
    boards with every column's ordered id list. *)
Definition projection (s : TaskState) : gmap string Task.t * list Board.t :=
  (tasks s, boards s).

(** Modelled from the spec: the taxonomy of durable-write failures
    ([network], [not_authorized], [not_found]) is missing from the store,
    whose [catch (error: any)] blocks read nothing but [error.message]. *)
Inductive ErrorKind := network | not_authorized | not_found.

(** What a [catch] block may bind: a rejected durable write, or an error
    raised locally ([new Error('No token found')], a [TypeError]). *)
Inductive Err :=
| WriteFailed (kind : ErrorKind) (msg : string)
| JsError (msg : string).

Definition message (e : Err) : string :=
  match e with WriteFailed _ m => m | JsError m => m end.

(** How an awaited promise settles. *)
Inductive Settled (A : Type) :=
| Resolved (a : A)
| Rejected (e : Err).
Arguments Resolved {A} a.
Arguments Rejected {A} e.

(** What an action does besides computing: it publishes a new store state
    to the subscribers ([set]), calls the Mutation API, or talks to the
    user. *)
Inductive Effect :=
| Published (s : TaskState)
| ApiCreateTask (token : string) (body : Task.t)
| ApiUpdateTask (token : string) (taskId : string) (body : Payload.t)
| ApiDeleteTask (token : string) (taskId : string)
| FetchNotifications
| FetchTasks (boardId : string)
| FetchBoards
| SetTimeout (delay : Z)
| ToastError (msg : string).

Inductive Result (A : Type) :=
| Returned (a : A)
| Thrown (e : Err).
Arguments Returned {A} a.
Arguments Thrown {A} e.

(** A run-to-completion stretch of an action (the client is a single
    cooperative context): from the current store state to a result, the
    state left behind and the effects in program order. *)
Definition Prog (A : Type) : Type :=
  TaskState → Result A * TaskState * list Effect.

#[global] Instance prog_ret : MRet Prog :=
  λ A a s, (Returned a, s, []).

#[global] Instance prog_bind : MBind Prog :=
  λ A B k m s,
    match m s with
    | (Returned a, s1, tr1) =>
        match k a s1 with (r, s2, tr2) => (r, s2, (tr1 ++ tr2)%list) end
    | (Thrown e, s1, tr1) => (Thrown e, s1, tr1)
    end.

Definition get_state : Prog TaskState := λ s, (Returned s, s, []).

(** zustand's [set]: the patch is merged into the state and the result is
    what every subscriber sees next. *)
Definition set_state (patch : TaskState → TaskState) : Prog unit :=
  λ s, (Returned tt, patch s, [Published (patch s)]).

Definition perform (e : Effect) : Prog unit := λ s, (Returned tt, s, [e]).

Definition throw {A} (e : Err) : Prog A := λ s, (Thrown e, s, []).

Definition try_catch {A} (body : Prog A) (handler : Err → Prog A) : Prog A :=
  λ s,
    match body s with
    | (Thrown e, s1, tr1) =>
        match handler e s1 with (r, s2, tr2) => (r, s2, (tr1 ++ tr2)%list) end
    | finished => finished
    end.

Definition state_after {A} (run : Result A * TaskState * list Effect) : TaskState :=
  run.1.2.
Definition trace_of {A} (run : Result A * TaskState * list Effect) : list Effect :=
  run.2.
Definition result_of {A} (run : Result A * TaskState * list Effect) : Result A :=
  run.1.1.

(** The store states an observer saw during a run, oldest first. *)
Fixpoint published (tr : list Effect) : list TaskState :=
  match tr with
  | [] => []
  | Published s :: tr' => s :: published tr'
  | _ :: tr' => published tr'
  end.

Definition is_refetch (e : Effect) : bool :=
  match e with FetchTasks _ | FetchBoards => true | _ => false end.

Definition is_write (e : Effect) : bool :=
  match e with
  | ApiCreateTask _ _ | ApiUpdateTask _ _ _ | ApiDeleteTask _ _ => true
  | _ => false
  end.

(** State patches written as in the source: [{ tasks, boards }],
    [{ tasks }], [{ error }]. *)
Definition patch_tasks_boards (t : gmap string Task.t) (b : list Board.t)
    (s : TaskState) : TaskState :=
  mkState b (publicBoards s) t (currentBoardId s) (loading s) (error s).

Definition patch_tasks (t : gmap string Task.t) (s : TaskState) : TaskState :=
  mkState (boards s) (publicBoards s) t (currentBoardId s) (loading s) (error s).

Definition patch_error (msg : string) (s : TaskState) : TaskState :=
  mkState (boards s) (publicBoards s) (tasks s) (currentBoardId s) (loading s)
    (Some msg).

Definition patch_tasks_boards_error (t : gmap string Task.t) (b : list Board.t)
    (msg : string) (s : TaskState) : TaskState :=
  mkState b (publicBoards s) t (currentBoardId s) (loading s) (Some msg).

(** ** moveTask *)

(** The body of [b.columns.map(col => ...)]. *)
Definition moveColumn (taskId sourceStatus destStatus : string) (destIndex : Z)
    (col : Column.t) : Column.t :=
  if bool_decide (Column.id col = sourceStatus)
     && bool_decide (Column.id col = destStatus) then
    Column.with_taskIds col
      (splice_insert destIndex taskId (without taskId (Column.taskIds col)))
  else if bool_decide (Column.id col = sourceStatus) then
    Column.with_taskIds col (without taskId (Column.taskIds col))
  else if bool_decide (Column.id col = destStatus) then
    Column.with_taskIds col
      (splice_insert destIndex taskId (without taskId (Column.taskIds col)))
  else col.

(** The shape shared by every [boards.map(b => ...)] of the store:
    [if (b.id !== boardId) return b; return { ...b, columns: b.columns.map(f) }]. *)
Definition on_board (boardId : option string) (f : Column.t → Column.t)
    (b : Board.t) : Board.t :=
  if bool_decide (Some (Board.id b) ≠ boardId) then b
  else Board.with_columns b (map f (Board.columns b)).

Definition find_board (boardId : option string) (bs : list Board.t)
    : option Board.t :=
  List.find (λ b, bool_decide (Some (Board.id b) = boardId)) bs.

Definition moved_task (task : Task.t) (destStatus : string) : Task.t :=
  Task.spread task
    (Task.mk None None None None (Some destStatus) None None None
       (Some destStatus) None None).

(** The synchronous part of [moveTask], up to and including [setTimeout].
    It returns the snapshot captured by the deferred callback, when one was
    scheduled. For a task that is not in the map, [task.boardId] is read by
    the callback of [boards.find], hence for the first board if there is
    one: that read is a [TypeError]; with no board at all nothing is read
    and no board is found. *)
Definition moveTask (taskId sourceStatus destStatus : string) (destIndex : Z)
    : Prog (option TaskState) :=
  originalState ← get_state;
  match tasks originalState !! taskId with
  | None =>
      match boards originalState with
      | [] => mret None
      | _ :: _ => throw (JsError (Js.reading_undefined "boardId"))
      end
  | Some task =>
      match find_board (Task.boardId task) (boards originalState) with
      | None => mret None
      | Some _ =>
          let newBoards :=
            map (on_board (Task.boardId task)
                   (moveColumn taskId sourceStatus destStatus destIndex))
                (boards originalState) in
          set_state (patch_tasks_boards
                       (<[taskId := moved_task task destStatus]>
                          (tasks originalState))
                       newBoards);;
          perform (SetTimeout 0);;
          mret (Some originalState)
      end
  end.

(** [{ status: destStatus, position: destIndex }] *)
Definition move_body (destStatus : string) (destIndex : Z) : Payload.t :=
  Payload.mk Js.missing Js.missing Js.missing Js.missing (Js.val destStatus)
    Js.missing Js.missing Js.missing Js.missing Js.missing (Js.val destIndex).

(** The callback handed to [setTimeout]: the durable write, and the revert
    when it fails. [reply] is how [api.updateTask] settles. *)
Definition moveTask_deferred (originalState : TaskState)
    (token : option string) (taskId destStatus : string) (destIndex : Z)
    (reply : Settled unit) : Prog unit :=
  try_catch
    (match token with
     | None => throw (JsError "No token")
     | Some tok =>
         perform (ApiUpdateTask tok taskId (move_body destStatus destIndex));;
         match reply with
         | Resolved _ => mret tt
         | Rejected e => throw e
         end
     end)
    (λ error,
       set_state (patch_tasks_boards_error (tasks originalState)
                    (boards originalState) (message error));;
       perform (ToastError "Failed to save task move")).

(** ** createTask *)

(** [`temp-${Date.now()}`] *)
Definition temp_id (now : Z) : string := "temp-" +:+ pretty now.

(** [{ ...data, id: tempId, columnId: data.columnId, createdAt, updatedAt }] *)
Definition optimistic_task (data : Task.t) (tempId : string) (now : Z) : Task.t :=
  Task.mk (Task._id data) (Some tempId) (Task.title data)
    (Task.description data) (Task.status data) (Task.dueDate data)
    (Some now) (Some now) (Task.columnId data) (Task.boardId data)
    (Task.position data).

Definition appendColumn (columnId : option string) (tempId : string)
    (c : Column.t) : Column.t :=
  if bool_decide (Some (Column.id c) = columnId) then
    Column.with_taskIds c (Column.taskIds c ++ [tempId])%list
  else c.

(** The optimistic insertion, run before anything is sent. *)
Definition createTask_optimistic (data : Task.t) (now : Z) : Prog string :=
  let tempId := temp_id now in
  let optimisticTask := optimistic_task data tempId now in
  set_state (λ state,
    patch_tasks_boards (<[tempId := optimisticTask]> (tasks state))
      (map (on_board (Task.boardId data)
              (appendColumn (Task.columnId data) tempId))
           (boards state))
      state);;
  mret tempId.

(** [{ ...data, status: data.columnId }] *)
Definition create_body (data : Task.t) : Task.t :=
  Task.mk (Task._id data) (Task.id data) (Task.title data)
    (Task.description data) (Task.columnId data) (Task.dueDate data)
    (Task.createdAt data) (Task.updatedAt data) (Task.columnId data)
    (Task.boardId data) (Task.position data).

(** Inside [try], up to the [await]. *)
Definition createTask_request (token : option string) (data : Task.t)
    : Prog unit :=
  match token with
  | None => throw (JsError "No token found")
  | Some tok => perform (ApiCreateTask tok (create_body data))
  end.

(** [{ ...response.data, id: response.data._id || response.data.id,
       columnId: response.data.status }] *)
Definition server_task (response : Task.t) : Task.t :=
  Task.mk (Task._id response) (js_or (Task._id response) (Task.id response))
    (Task.title response) (Task.description response) (Task.status response)
    (Task.dueDate response) (Task.createdAt response)
    (Task.updatedAt response) (Task.status response) (Task.boardId response)
    (Task.position response).

Definition swapColumn (columnId : option string) (tempId newId : string)
    (c : Column.t) : Column.t :=
  if bool_decide (Some (Column.id c) = columnId) then
    Column.with_taskIds c (replace_id tempId newId (Column.taskIds c))
  else c.

(** After the [await], on success: "Replace optimistic task with real
    task". The patch is computed from the state current at that moment. A
    response without any id is filed under the key ["undefined"]. *)
Definition createTask_commit (tempId : string) (response : Task.t)
    : Prog (option string) :=
  let newTask := server_task response in
  let newId := js_key (Task.id newTask) in
  set_state (λ state,
    patch_tasks_boards (<[newId := newTask]> (delete tempId (tasks state)))
      (map (on_board (Task.boardId newTask)
              (swapColumn (Task.columnId newTask) tempId newId))
           (boards state))
      state);;
  perform FetchNotifications;;
  mret (Some newId).

Definition pruneColumn (taskId : string) (c : Column.t) : Column.t :=
  Column.with_taskIds c (without taskId (Column.taskIds c)).

(** The [catch] block: "Rollback optimistic update on error". *)
Definition createTask_rollback (data : Task.t) (tempId : string) (error : Err)
    : Prog (option string) :=
  set_state (λ state,
    patch_tasks_boards_error (delete tempId (tasks state))
      (map (on_board (Task.boardId data) (pruneColumn tempId)) (boards state))
      (message error) state);;
  perform (ToastError (default "Failed to create task"
                         (js_or (Some (message error)) None)));;
  mret None.

(** The whole action when nothing else runs between its stretches. *)
Definition createTask (token : option string) (data : Task.t) (now : Z)
    (reply : Settled Task.t) : Prog (option string) :=
  tempId ← createTask_optimistic data now;
  try_catch
    (createTask_request token data;;
     match reply with
     | Resolved response => createTask_commit tempId response
     | Rejected e => throw e
     end)
    (createTask_rollback data tempId).

(** ** updateTask *)

(** [{ ...updates, status: updates.columnId }]: the body has a [status]
    key in any case. *)
Definition update_body (updates : Payload.t) : Payload.t :=
  Payload.mk (Payload._id updates) (Payload.id updates) (Payload.title updates)
    (Payload.description updates) (Js.get (Payload.columnId updates))
    (Payload.dueDate updates) (Payload.createdAt updates)
    (Payload.updatedAt updates) (Payload.columnId updates)
    (Payload.boardId updates) (Payload.position updates).

(** Up to the [await]; tells whether a write is in flight. Without a token
    the action returns at once. *)
Definition updateTask_request (token : option string) (taskId : string)
    (updates : Payload.t) : Prog bool :=
  match token with
  | None => mret false
  | Some tok => perform (ApiUpdateTask tok taskId (update_body updates));;
                mret true
  end.

(** After the [await]:
    [{ ...state.tasks, [taskId]: { ...state.tasks[taskId], ...updates } }],
    where spreading the [undefined] of an unknown task adds nothing. *)
Definition updateTask_settle (taskId : string) (updates : Payload.t)
    (reply : Settled unit) : Prog unit :=
  match reply with
  | Resolved _ =>
      set_state (λ state,
        patch_tasks
          (<[taskId := Payload.merge
                         (default Task.empty (tasks state !! taskId))
                         updates]> (tasks state))
          state)
  | Rejected e => set_state (patch_error (message e))
  end.

Definition updateTask (token : option string) (taskId : string)
    (updates : Payload.t) (reply : Settled unit) : Prog unit :=
  sent ← updateTask_request token taskId updates;
  if sent : bool then updateTask_settle taskId updates reply else mret tt.

(** ** deleteTask *)

(** Up to the [await]: the task is looked up before the write is sent. *)
Definition deleteTask_request (token : option string) (taskId : string)
    : Prog (option (option Task.t)) :=
  match token with
  | None => mret None
  | Some tok =>
      state ← get_state;
      perform (ApiDeleteTask tok taskId);;
      mret (Some (tasks state !! taskId))
  end.

(** After the [await]. When the task was unknown, [task.boardId] raises a
    [TypeError] for the first board visited, inside the updater, and the
    [catch] block records it. *)
Definition deleteTask_settle (taskId : string) (task : option Task.t)
    (reply : Settled unit) : Prog unit :=
  try_catch
    (match reply with
     | Rejected e => throw e
     | Resolved _ =>
         state ← get_state;
         match task, boards state with
         | None, _ :: _ => throw (JsError (Js.reading_undefined "boardId"))
         | None, [] =>
             set_state (patch_tasks_boards (delete taskId (tasks state)) [])
         | Some t, bs =>
             set_state
               (patch_tasks_boards (delete taskId (tasks state))
                  (map (on_board (Task.boardId t) (pruneColumn taskId)) bs))
         end
     end)
    (λ error, set_state (patch_error (message error))).

Definition deleteTask (token : option string) (taskId : string)
    (reply : Settled unit) : Prog unit :=
  sent ← deleteTask_request token taskId;
  match sent with
  | Some task => deleteTask_settle taskId task reply
  | None => mret tt
  end.

(** ** Where a task sits *)

Definition occurrences (taskId : string) (l : list string) : nat :=
  length (filter (λ y, y = taskId) l).

(** How many times the columns of a board list [taskId]. *)
Definition board_occurrences (taskId : string) (b : Board.t) : nat :=
  sum_list (map (λ c, occurrences taskId (Column.taskIds c)) (Board.columns b)).

(** Every task of the map is listed exactly once by the columns of its
    board. *)
Definition placed_once (st : TaskState) : Prop :=
  map_Forall
    (λ taskId task,
       board_occurrences taskId
         <$> find_board (Task.boardId task) (boards st) = Some 1%nat)
    (tasks st).

(** [taskId] is listed by no column of any board. *)
Definition nowhere (taskId : string) (bs : list Board.t) : Prop :=
  Forall (λ b, board_occurrences taskId b = 0%nat) bs.

(** A move names its columns correctly on board [b]: exactly one column is
    called [destStatus], and the columns that list the task are called
    [sourceStatus] or [destStatus]. *)
Definition names_columns (taskId sourceStatus destStatus : string)
    (b : Board.t) : Prop :=
  length (filter (λ c, Column.id c = destStatus) (Board.columns b)) = 1%nat
  ∧ Forall (λ c, taskId ∈ Column.taskIds c →
                 Column.id c = sourceStatus ∨ Column.id c = destStatus)
      (Board.columns b).

(** The board a move would rebuild, if any. *)
Definition move_target (st : TaskState) (taskId : string) : option Board.t :=
  task ← tasks st !! taskId;
  find_board (Task.boardId task) (boards st).

Definition move_fits (st : TaskState) (taskId sourceStatus destStatus : string)
    : Prop :=
  from_option (names_columns taskId sourceStatus destStatus) True
    (move_target st taskId).

(** On board [b] the task is listed once by every column called
    [columnId], and by no other column. *)
Definition sits_in (taskId columnId : string) (b : Board.t) : Prop :=
  Forall (λ c, occurrences taskId (Column.taskIds c)
               = if bool_decide (Column.id c = columnId) then 1%nat else 0%nat)
    (Board.columns b).

#[global] Instance sits_in_dec t d b : Decision (sits_in t d b).
Proof. unfold sits_in. apply _. Defined.

#[global] Instance names_columns_dec t s d b : Decision (names_columns t s d b).
Proof. unfold names_columns. apply _. Defined.

#[global] Instance move_fits_dec st t s d : Decision (move_fits st t s d).
Proof. unfold move_fits. destruct (move_target st t); simpl; apply _. Defined.

#[global] Instance placed_once_dec st : Decision (placed_once st).
Proof. unfold placed_once. apply _. Defined.

#[global] Instance nowhere_dec t bs : Decision (nowhere t bs).
Proof. unfold nowhere. apply _. Defined.

(** ** Sequences of moves *)

Record MoveCall := mkCall {
  call_task : string;
  call_source : string;
  call_dest : string;
  call_index : Z
}.

(** A deferred write waiting in the timer queue, with the snapshot its
    callback closed over. *)
Record Pending := mkPending {
  snapshot : TaskState;
  pending_call : MoveCall
}.

Record Client := mkClient {
  store : TaskState;
  timers : list Pending
}.

(** What can happen next on a client that only moves tasks: the UI calls
    [moveTask], or the [n]-th waiting callback runs and its write settles. *)
Inductive MoveStep :=
| Call (c : MoveCall)
| Fire (n : nat) (token : option string) (reply : Settled unit).

Definition move_step (e : MoveStep) (cl : Client) : Client * list Effect :=
  match e with
  | Call c =>
      match moveTask (call_task c) (call_source c) (call_dest c)
              (call_index c) (store cl) with
      | (Returned (Some orig), st, tr) =>
          (mkClient st (timers cl ++ [mkPending orig c])%list, tr)
      | (_, st, tr) => (mkClient st (timers cl), tr)
      end
  | Fire n token reply =>
      match timers cl !! n with
      | Some p =>
          let run :=
            moveTask_deferred (snapshot p) token (call_task (pending_call p))
              (call_dest (pending_call p)) (call_index (pending_call p))
              reply (store cl) in
          (mkClient (state_after run) (delete n (timers cl)), trace_of run)
      | None => (cl, [])
      end
  end.

Fixpoint run_moves (steps : list MoveStep) (cl : Client)
    : Client * list Effect :=
  match steps with
  | [] => (cl, [])
  | e :: rest =>
      let '(cl1, tr1) := move_step e cl in
      let '(cl2, tr2) := run_moves rest cl1 in
      (cl2, (tr1 ++ tr2)%list)
  end.

(** Every call of the sequence names its columns correctly in the state it
    is made in. *)
Fixpoint well_addressed (steps : list MoveStep) (cl : Client) : Prop :=
  match steps with
  | [] => True
  | e :: rest =>
      match e with
      | Call c =>
          move_fits (store cl) (call_task c) (call_source c) (call_dest c)
      | Fire _ _ _ => True
      end
      ∧ well_addressed rest (move_step e cl).1
  end.

#[global] Instance well_addressed_dec steps :
  ∀ cl, Decision (well_addressed steps cl).
Proof.
  induction steps as [|e steps IH]; intros cl; simpl; [apply _|].
  destruct e; apply _.
Defined.

(** ** Reading a run *)

(** The ways the synchronous part of [moveTask] can go. *)
Inductive moveTask_spec (t s d : string) (i : Z) (st : TaskState)
  : Result (option TaskState) * TaskState * list Effect → Prop :=
| move_threw e :
    tasks st !! t = None →
    boards st ≠ [] →
    moveTask_spec t s d i st (Thrown e, st, [])
| move_nothing_loaded :
    tasks st !! t = None →
    boards st = [] →
    moveTask_spec t s d i st (Returned None, st, [])
| move_no_board task :
    tasks st !! t = Some task →
    find_board (Task.boardId task) (boards st) = None →
    moveTask_spec t s d i st (Returned None, st, [])
| move_applied task b :
    tasks st !! t = Some task →
    find_board (Task.boardId task) (boards st) = Some b →
    let st' := patch_tasks_boards (<[t := moved_task task d]> (tasks st))
                 (map (on_board (Task.boardId task) (moveColumn t s d i))
                    (boards st)) st in
    moveTask_spec t s d i st
      (Returned (Some st), st', [Published st'; SetTimeout 0]).

(** The durable write did not go through: there was no token to send it
    with, or the promise was rejected. [token] stands for what
    [localStorage.getItem('taskflow_token')] yields when it is truthy. *)
Definition write_failed {A} (token : option string) (reply : Settled A) : Prop :=
  token = None ∨ ∃ e, reply = Rejected e.

(** The store and every snapshot still held by a waiting callback list
    each task once. *)
Definition client_ok (cl : Client) : Prop :=
  placed_once (store cl) ∧ Forall (λ p, placed_once (snapshot p)) (timers cl).


(** ** Sample states *)

Definition sample_task (i col : string) : Task.t :=
  Task.mk None (Some i) (Some ("Task " +:+ i)) (Some "") (Some col) None
    (Some 0) (Some 0) (Some col) (Some "B1") (Some 0).

Definition sample_board (todo doing done : list string) : Board.t :=
  Board.mk "B1" "Sprint"
    [ Column.mk "todo" "To Do" todo 0;
      Column.mk "in-progress" "In Progress" doing 1;
      Column.mk "done" "Done" done 2 ]
    "u1".

(** Board [B1] of the specification's scenario: [todo=[t1,t2]], the other
    columns empty. *)
Definition sample_state : TaskState :=
  mkState [sample_board ["t1"; "t2"] [] []] []
    (<["t1" := sample_task "t1" "todo"]>
       (<["t2" := sample_task "t2" "todo"]> ∅))
    (Some "B1") false None.

(** A move, its write timing out, a reorder past the end of the column,
    and a move to the last place of another column. *)
Definition sample_moves : list MoveStep :=
  [ Call (mkCall "t1" "todo" "done" 0);
    Fire 0 (Some "tok") (Rejected (WriteFailed network "timeout"));
    Call (mkCall "t2" "todo" "todo" 5);
    Call (mkCall "t1" "todo" "in-progress" (-1)) ].

(** What the task form hands to [createTask]. *)
Definition new_task : Task.t :=
  Task.mk None None (Some "Write report") (Some "") None None None None
    (Some "todo") (Some "B1") (Some 0).

Definition second_task : Task.t :=
  Task.mk None None (Some "Book venue") (Some "") None None None None
    (Some "todo") (Some "B1") (Some 0).

(** The document the server answers a create with. *)
Definition server_reply : Task.t :=
  Task.mk (Some "t99") None (Some "Write report") (Some "") (Some "todo") None
    (Some 1000) (Some 1000) None (Some "B1") (Some 0).

Definition rename_patch : Payload.t :=
  Payload.mk Js.missing Js.missing (Js.val "Renamed") Js.missing Js.missing
    Js.missing Js.missing Js.missing Js.missing Js.missing Js.missing.

(** An edit that renames the task and clears its due date. *)
Definition clear_date_patch : Payload.t :=
  Payload.mk Js.missing Js.missing (Js.val "Renamed") Js.missing Js.missing
    Js.null Js.missing Js.missing Js.missing Js.missing Js.missing.

(** A [task_updated] payload: the server's document of [t1], renamed,
    moved to [done], its due date cleared. *)
Definition sample_event : Payload.t :=
  Payload.mk (Js.val "t1") Js.missing (Js.val "Renamed") (Js.val "")
    (Js.val "done") Js.null (Js.val 0) (Js.val 9) Js.missing (Js.val "B1")
    (Js.val 0).

(** A task of [B1] with a due date. *)
Definition dated_task (i col : string) (due : Z) : Task.t :=
  Task.mk None (Some i) (Some ("Task " +:+ i)) (Some "") (Some col) (Some due)
    (Some 0) (Some 0) (Some col) (Some "B1") (Some 0).

(** [sample_state] with a due date on [t1]. *)
Definition dated_state : TaskState :=
  mkState [sample_board ["t1"; "t2"] [] []] []
    (<["t1" := dated_task "t1" "todo" 5000]>
       (<["t2" := sample_task "t2" "todo"]> ∅))
    (Some "B1") false None.

(** * The server *)

(** ** Documents *)

Module Member.
Record t := mk {
  id : option string;
  name : string;
  email : string;
  role : string;
  status : string
}.
End Member.

Module BoardDoc.
Record t := mk {
  _id : string;
  name : string;
  isPublic : bool;
  ownerId : string;
  members : list Member.t
}.
End BoardDoc.

Module TaskDoc.
Record t := mk {
  _id : string;
  title : string;
  status : string;
  dueDate : option Z;
  boardId : string;
  userId : string
}.
End TaskDoc.

(** [server/models/Notification.js] *)
Module Notification.

Inductive type :=
| board_created | task_created | task_deadline | board_invite | task_moved
| task_deleted | added_to_board | member_removed | member_left
| comment_added | role_changed | mention.

#[global] Instance type_eq_dec : EqDecision type.
Proof. solve_decision. Defined.

Record t := mk {
  _id : string;
  userId : string;
  message : string;
  type_ : type;
  boardId : option string;
  taskId : option string;
  read : bool;
  createdAt : Z
}.

(** The object handed to [Notification.create]. *)
Record draft := mkDraft {
  d_userId : option string;
  d_message : string;
  d_type : type;
  d_boardId : option string;
  d_taskId : option string
}.

Inductive path :=
| p_userId | p_message | p_type | p_boardId | p_taskId | p_read | p_createdAt.

Inductive value :=
| VString (s : string)
| VType (k : type)
| VBool (b : bool)
| VDate (z : Z)
| VNull.

#[global] Instance value_eq_dec : EqDecision value.
Proof. solve_decision. Defined.

Definition at_path (p : path) (n : t) : value :=
  match p with
  | p_userId => VString (userId n)
  | p_message => VString (message n)
  | p_type => VType (type_ n)
  | p_boardId => from_option VString VNull (boardId n)
  | p_taskId => from_option VString VNull (taskId n)
  | p_read => VBool (read n)
  | p_createdAt => VDate (createdAt n)
  end.

(** An index declaration: the keyed paths with their direction, and the
    [unique] option ([false] unless given). *)
Record index := mkIndex {
  keys : list (path * Z);
  unique : bool
}.

(** [notificationSchema.index({ userId: 1, createdAt: -1 })], the only
    index the schema declares. *)
Definition indexes : list index :=
  [ mkIndex [(p_userId, 1); (p_createdAt, -1)] false ].

(** Two documents collide on an index when they agree on all its keys. *)
Definition same_key (ix : index) (a b : t) : bool :=
  forallb (λ k, bool_decide (at_path k.1 a = at_path k.1 b)) (keys ix).

(** A unique index refuses a document that collides with a stored one. *)
Definition refused_by (ix : index) (n : t) (stored : list t) : bool :=
  unique ix && existsb (same_key ix n) stored.

End Notification.

(** ** Server state and its operations *)

(** A transport session. [handshake_user] is the user whose token the
    client put in the handshake ([auth: { token }]); no server code reads
    it. *)
Record Socket := mkSocket {
  socket_id : string;
  handshake_user : option string
}.

Record Emit := mkEmit {
  emit_room : string;
  emit_event : string;
  emit_payload : Notification.t
}.

Record Server := mkServer {
  task_docs : list TaskDoc.t;
  board_docs : list BoardDoc.t;
  notification_docs : list Notification.t;
  next_id : Z;
  rooms : gmap string (gset string);
  emitted : list Emit;
  console : list string
}.

Inductive ServerError :=
| ValidationError (msg : string)
| DuplicateKey (ix : Notification.index)
| StoreFault (msg : string).

(** The store and transport operations one tick performs; a fault oracle
    says which of them fail. *)
Inductive Op :=
| OpFindTasks
| OpFindOne (userId taskId : string)
| OpCreate (d : Notification.draft)
| OpEmit (room : string).

Inductive Try (A : Type) :=
| Done (a : A)
| Failed (e : ServerError).
Arguments Done {A} a.
Arguments Failed {A} e.

Definition ServerM (A : Type) : Type := Server → Try A * Server.

#[global] Instance server_ret : MRet ServerM := λ A a s, (Done a, s).

#[global] Instance server_bind : MBind ServerM :=
  λ A B k m s,
    match m s with
    | (Done a, s1) => k a s1
    | (Failed e, s1) => (Failed e, s1)
    end.

Definition catching {A} (body : ServerM A) (handler : ServerError → ServerM A)
    : ServerM A :=
  λ s, match body s with
       | (Failed e, s1) => handler e s1
       | ok => ok
       end.

Definition console_log (line : string) : ServerM unit :=
  λ s, (Done tt,
        mkServer (task_docs s) (board_docs s) (notification_docs s) (next_id s)
          (rooms s) (emitted s) (console s ++ [line])%list).

Definition with_notifications (s : Server) (ns : list Notification.t)
    (next : Z) : Server :=
  mkServer (task_docs s) (board_docs s) ns next (rooms s) (emitted s)
    (console s).

Definition with_rooms (s : Server) (r : gmap string (gset string)) : Server :=
  mkServer (task_docs s) (board_docs s) (notification_docs s) (next_id s) r
    (emitted s) (console s).

Definition with_emitted (s : Server) (e : list Emit) : Server :=
  mkServer (task_docs s) (board_docs s) (notification_docs s) (next_id s)
    (rooms s) e (console s).

Section Scheduler.

(** Which operations fail (a dropped connection, a timeout). *)
Variable faulty : Op → bool.

(** [tomorrow = new Date(now); tomorrow.setDate(now.getDate() + 1)]: the
    same wall-clock time on the next calendar day of the server's zone. *)
Variable next_day : Z → Z.

(** The query [{ dueDate: { $gte: now, $lte: tomorrow }, status: { $ne: 'done' } }]. *)
Definition due_soon (now : Z) (t : TaskDoc.t) : bool :=
  match TaskDoc.dueDate t with
  | Some d => (now <=? d) && (d <=? next_day now)
  | None => false
  end
  && negb (bool_decide (TaskDoc.status t = "done")).

(** [.populate('boardId')]: the board document, or [null] when the
    reference dangles. *)
Definition populate (bs : list BoardDoc.t) (t : TaskDoc.t) : option BoardDoc.t :=
  List.find (λ b, bool_decide (BoardDoc._id b = TaskDoc.boardId t)) bs.

Definition Task_find (now : Z) : ServerM (list (TaskDoc.t * option BoardDoc.t)) :=
  λ s,
    if faulty OpFindTasks then (Failed (StoreFault "Task.find"), s)
    else (Done (map (λ t, (t, populate (board_docs s) t))
                  (List.filter (due_soon now) (task_docs s))), s).

Definition deadline_for (userId taskId : string) (n : Notification.t) : bool :=
  bool_decide (Notification.userId n = userId)
  && bool_decide (Notification.taskId n = Some taskId)
  && bool_decide (Notification.type_ n = Notification.task_deadline).

(** [Notification.findOne({ userId, taskId, type: 'task_deadline' })] *)
Definition Notification_findOne (userId taskId : string)
    : ServerM (option Notification.t) :=
  λ s,
    if faulty (OpFindOne userId taskId) then
      (Failed (StoreFault "Notification.findOne"), s)
    else (Done (List.find (deadline_for userId taskId) (notification_docs s)), s).

(** [Notification.create(draft)]: schema validation ([userId], [message]
    and [type] are required; an empty string does not satisfy [required]),
    then the insertion, which every unique index may refuse. *)
Definition Notification_create (now : Z) (d : Notification.draft)
    : ServerM Notification.t :=
  λ s,
    if faulty (OpCreate d) then (Failed (StoreFault "Notification.create"), s)
    else
      match Notification.d_userId d with
      | None => (Failed (ValidationError "Path `userId` is required."), s)
      | Some uid =>
          if bool_decide (Notification.d_message d = "") then
            (Failed (ValidationError "Path `message` is required."), s)
          else
            let n := Notification.mk ("n" +:+ pretty (next_id s)) uid
                       (Notification.d_message d) (Notification.d_type d)
                       (Notification.d_boardId d) (Notification.d_taskId d)
                       false now in
            match List.find (λ ix, Notification.refused_by ix n
                                     (notification_docs s))
                    Notification.indexes with
            | Some ix => (Failed (DuplicateKey ix), s)
            | None =>
                (Done n,
                 with_notifications s (notification_docs s ++ [n])%list
                   (next_id s + 1))
            end
      end.

(** [io.to(room).emit('new_notification', notification)] *)
Definition emit_to (room : string) (n : Notification.t) : ServerM unit :=
  λ s,
    if faulty (OpEmit room) then (Failed (StoreFault "emit"), s)
    else (Done tt,
          with_emitted s (emitted s ++ [mkEmit room "new_notification" n])%list).

Definition deadline_message (t : TaskDoc.t) (b : BoardDoc.t) : string :=
  "Deadline approaching: " +:+ dquote +:+ TaskDoc.title t +:+ dquote
  +:+ " in board " +:+ dquote +:+ BoardDoc.name b +:+ dquote
  +:+ " is due within 24 hours!".

(** The body of [for (const task of tasks)]. *)
Definition process_task (io : bool) (now : Z)
    (entry : TaskDoc.t * option BoardDoc.t) : ServerM unit :=
  let task := entry.1 in
  existing ← Notification_findOne (TaskDoc.userId task) (TaskDoc._id task);
  match existing, entry.2 with
  | None, Some board =>
      notification ←
        Notification_create now
          (Notification.mkDraft (Some (TaskDoc.userId task))
             (deadline_message task board) Notification.task_deadline
             (Some (BoardDoc._id board)) (Some (TaskDoc._id task)));
      console_log ("Deadline notification created for task: "
                   +:+ TaskDoc.title task);;
      if io then emit_to ("user:" +:+ TaskDoc.userId task) notification
      else mret tt
  | _, _ => mret tt
  end.

Fixpoint for_of {A} (body : A → ServerM unit) (l : list A) : ServerM unit :=
  match l with
  | [] => mret tt
  | x :: rest => body x;; for_of body rest
  end.

(** One tick: a single [try] around the query and the whole loop. *)
Definition checkDeadlines (io : bool) (now : Z) : ServerM unit :=
  catching
    (found ← Task_find now;
     for_of (process_task io now) found)
    (λ e, console_log "Deadline checker error").

End Scheduler.

(** How many [task_deadline] notifications the store holds for a key. *)
Definition deadline_count (userId taskId : string) (s : Server) : nat :=
  length (List.filter (deadline_for userId taskId) (notification_docs s)).

Definition no_faults : Op → bool := λ _, false.

(** A zone without clock changes: the next day is 24 hours away. *)
Definition utc_next_day (now : Z) : Z := now + 86400000.

(** ** Rooms *)

(** [socket.join(room)] *)
Definition socket_join (sock : Socket) (room : string) (s : Server) : Server :=
  with_rooms s
    (<[room := {[socket_id sock]} ∪ default ∅ (rooms s !! room)]> (rooms s)).

(** [socket.on('join_board', (boardId) => { socket.join(`board:${boardId}`) })] *)
Definition on_join_board (sock : Socket) (boardId : string) (s : Server) : Server :=
  socket_join sock ("board:" +:+ boardId) s.

(** [socket.on('join_user', (userId) => { socket.join(`user:${userId}`) })] *)
Definition on_join_user (sock : Socket) (userId : string) (s : Server) : Server :=
  socket_join sock ("user:" +:+ userId) s.

Definition in_room (sock : Socket) (room : string) (s : Server) : Prop :=
  socket_id sock ∈ default (∅ : gset string) (rooms s !! room).

(** Membership as the Mutation API checks it ([routes/tasks.js]):
    [board.members.some(m => m.id && m.id.equals(user))] or
    [board.ownerId.equals(user)]. *)
Definition isMember (b : BoardDoc.t) (user : string) : bool :=
  existsb (λ m, bool_decide (Member.id m = Some user)) (BoardDoc.members b).

Definition isOwner (b : BoardDoc.t) (user : string) : bool :=
  bool_decide (BoardDoc.ownerId b = user).

(** The session's user belongs to the board called [boardId]. *)
Definition verified_member (sock : Socket) (boardId : string) (s : Server) : bool :=
  match handshake_user sock,
        List.find (λ b, bool_decide (BoardDoc._id b = boardId)) (board_docs s) with
  | Some user, Some b => isMember b user || isOwner b user
  | _, _ => false
  end.

(** ** Reading a tick *)

(** The task carries the dedupe key. *)
Definition key_of (u tid : string) (t : TaskDoc.t) : bool :=
  bool_decide (TaskDoc.userId t = u) && bool_decide (TaskDoc._id t = tid).

(** Some entry of the batch carries the key and has its board. *)
Definition eligible (u tid : string)
    (l : list (TaskDoc.t * option BoardDoc.t)) : bool :=
  existsb (λ e, key_of u tid e.1 && bool_decide (is_Some e.2)) l.

(** ** Sample server states *)

Definition hour : Z := 3600000.

Definition sample_board_doc : BoardDoc.t :=
  BoardDoc.mk "B1" "Sprint" false "u1"
    [Member.mk (Some "u3") "Cleo" "cleo@example.org" "member" "active"].

Definition sample_task_doc (i : string) (owner board : string) (due : Z)
    : TaskDoc.t :=
  TaskDoc.mk i ("Task " +:+ i) "todo" (Some due) board owner.

Definition sample_server : Server :=
  mkServer
    [sample_task_doc "t1" "u1" "B1" (5 * hour);
     sample_task_doc "t2" "u3" "B1" (7 * hour)]
    [sample_board_doc] [] 0 ∅ [] [].

(** A store whose only task points at a board that no longer exists. *)
Definition orphan_server : Server :=
  mkServer [sample_task_doc "t7" "u1" "B9" (5 * hour)] [sample_board_doc]
    [] 0 ∅ [] [].

(** Creating the notification of one task fails. *)
Definition create_fails_for (taskId : string) (op : Op) : bool :=
  match op with
  | OpCreate d => bool_decide (Notification.d_taskId d = Some taskId)
  | _ => false
  end.

Definition deadline_draft (userId taskId : string) : Notification.draft :=
  Notification.mkDraft (Some userId) "Deadline approaching"
    Notification.task_deadline (Some "B1") (Some taskId).

(** A session of [u2], who is neither owner nor member of [B1]. *)
Definition stranger : Socket := mkSocket "s9" (Some "u2").

(** * Further code of the store and of the server *)

(** ** fetchTasks *)

(** [a === b] between a state field that holds a string or [null] and
    the id an event names: equal only when both are strings, and the same
    one. *)
Definition same_id (a b : option string) : bool :=
  match a, b with
  | Some x, Some y => bool_decide (x = y)
  | _, _ => false
  end.

(** [{ loading: true, error: null }], [{ error, loading: false }] *)
Definition patch_loading (s : TaskState) : TaskState :=
  mkState (boards s) (publicBoards s) (tasks s) (currentBoardId s) true None.

Definition patch_failed (msg : string) (s : TaskState) : TaskState :=
  mkState (boards s) (publicBoards s) (tasks s) (currentBoardId s) false
    (Some msg).

(** [{ ...t, id: t._id || t.id, columnId: t.status }] *)
Definition fetched_task (t : Task.t) : Task.t := server_task t.

(** [col => ({ ...col, taskIds: [] })] *)
Definition clearColumn (c : Column.t) : Column.t := Column.with_taskIds c [].

(** [const col = columns.find(c => c.id === t.status);
     if (col) col.taskIds.push(task.id)]: the first column called like the
    status gets the id at its tail. *)
Fixpoint push_first (status : option string) (taskId : string)
    (cols : list Column.t) : list Column.t :=
  match cols with
  | [] => []
  | c :: rest =>
      if bool_decide (Some (Column.id c) = status) then
        Column.with_taskIds c (Column.taskIds c ++ [taskId])%list :: rest
      else c :: push_first status taskId rest
  end.

(** The [forEach] over [response.data], on the cleared columns. *)
Definition refill (data : list Task.t) (cols : list Column.t)
    : list Column.t :=
  fold_left
    (λ cols t, push_first (Task.status t) (js_key (Task.id (fetched_task t))) cols)
    data (map clearColumn cols).

(** [updateBoardTasks] *)
Definition updateBoardTasks (boardId : string) (data : list Task.t)
    (b : Board.t) : Board.t :=
  if bool_decide (Board.id b ≠ boardId) then b
  else Board.with_columns b (refill data (Board.columns b)).

(** [tasksMap] as the [forEach] fills it: later entries overwrite earlier
    ones with the same id. *)
Definition fill_tasksMap (data : list Task.t) : gmap string Task.t :=
  fold_left
    (λ m t, <[js_key (Task.id (fetched_task t)) := fetched_task t]> m)
    data ∅.

(** [tasksMap] is filled inside [updateBoardTasks], that is, only while a
    board called [boardId] is being rebuilt, in [boards] or in
    [publicBoards]. *)
Definition tasksMap_of (boardId : string) (data : list Task.t)
    (s : TaskState) : gmap string Task.t :=
  if existsb (λ b, bool_decide (Board.id b = boardId))
       (boards s ++ publicBoards s)%list
  then fill_tasksMap data else ∅.

(** Up to the [await]; tells whether the request is in flight. Without a
    token the action returns from inside [try], after [loading] was set. *)
Definition fetchTasks_request (token : option string) (boardId : string)
    : Prog bool :=
  set_state patch_loading;;
  match token with
  | None => mret false
  | Some _ => perform (FetchTasks boardId);; mret true
  end.

(** After the [await]. *)
Definition fetchTasks_settle (boardId : string)
    (reply : Settled (list Task.t)) : Prog unit :=
  match reply with
  | Resolved data =>
      s ← get_state;
      set_state (λ _,
        mkState (map (updateBoardTasks boardId data) (boards s))
          (map (updateBoardTasks boardId data) (publicBoards s))
          (tasksMap_of boardId data s ∪ tasks s)
          (currentBoardId s) false (error s))
  | Rejected e => set_state (patch_failed (message e))
  end.

Definition fetchTasks (token : option string) (boardId : string)
    (reply : Settled (list Task.t)) : Prog unit :=
  sent ← fetchTasks_request token boardId;
  if sent : bool then fetchTasks_settle boardId reply else mret tt.

(** ** Inbound events ([initializeSocket]) *)

(** [{ ...taskData, id: taskData._id || taskData.id }]: the object has an
    [id] key in any case. *)
Definition event_task (taskData : Payload.t) : Payload.t :=
  Payload.mk (Payload._id taskData)
    (Js.or (Payload._id taskData) (Payload.id taskData))
    (Payload.title taskData) (Payload.description taskData)
    (Payload.status taskData) (Payload.dueDate taskData)
    (Payload.createdAt taskData) (Payload.updatedAt taskData)
    (Payload.columnId taskData) (Payload.boardId taskData)
    (Payload.position taskData).

(** [socketService.on('task_updated', ...)]:
    [{ ...state.tasks, [task.id]: { ...state.tasks[task.id], ...task } }]
    when [task.boardId === get().currentBoardId]. *)
Definition on_task_updated (taskData : Payload.t) : Prog unit :=
  let task := event_task taskData in
  s ← get_state;
  if Js.same (Payload.boardId task) (currentBoardId s) then
    set_state (λ state,
      patch_tasks
        (<[Js.key (Payload.id task) :=
             Payload.merge (default Task.empty
                              (tasks state !! Js.key (Payload.id task))) task]>
           (tasks state))
        state)
  else mret tt.

(** [socketService.on('task_deleted', ...)] *)
Definition on_task_deleted (taskId : string) : Prog unit :=
  s ← get_state;
  match tasks s !! taskId with
  | None => mret tt
  | Some _ =>
      set_state (λ state,
        patch_tasks_boards (delete taskId (tasks s))
          (map (on_board (currentBoardId s) (pruneColumn taskId))
             (boards state))
          state)
  end.

Definition patch_boards (b : list Board.t) (s : TaskState) : TaskState :=
  mkState b (publicBoards s) (tasks s) (currentBoardId s) (loading s) (error s).

Definition patch_no_current (s : TaskState) : TaskState :=
  mkState (boards s) (publicBoards s) (tasks s) None (loading s) (error s).

(** The shape shared by ['you_were_removed'] and ['board_deleted']: the
    board leaves the list, and a client that was viewing it is sent
    away, in a second [set]. *)
Definition drop_board (boardId : string) (notice : string) : Prog unit :=
  state ← get_state;
  set_state (patch_boards
               (List.filter (λ b, bool_decide (Board.id b ≠ boardId))
                  (boards state)));;
  if same_id (currentBoardId state) (Some boardId) then
    set_state patch_no_current;;
    perform (ToastError notice)
  else mret tt.

(** [socketService.on('you_were_removed', ...)] *)
Definition on_you_were_removed (boardId boardName : string) : Prog unit :=
  drop_board boardId
    ("You have been removed from " +:+ dquote +:+ boardName +:+ dquote).

(** [socketService.on('board_deleted', ...)] *)
Definition on_board_deleted (boardId : string) : Prog unit :=
  drop_board boardId "The board you were viewing has been deleted".

(** [getCurrentBoard] *)
Definition getCurrentBoard (s : TaskState) : option Board.t :=
  match List.find (λ b, bool_decide (Some (Board.id b) = currentBoardId s))
          (boards s) with
  | Some b => Some b
  | None =>
      List.find (λ b, bool_decide (Some (Board.id b) = currentBoardId s))
        (publicBoards s)
  end.

(** ** Positions *)

(** Where [splice(start, 0, x)] puts [x] in a list of length [len]. *)
Definition splice_point (start : Z) (len : nat) : nat :=
  Z.to_nat (if start <? 0 then Z.max (Z.of_nat len + start) 0
            else Z.min start (Z.of_nat len)).

(** The ordered id lists of all boards, with one id left out. *)
Definition others_order (taskId : string) (bs : list Board.t)
    : list (list (list string)) :=
  map (λ b, map (λ c, without taskId (Column.taskIds c)) (Board.columns b)) bs.

(** The id list of the column at place [j] of the board at place [i]. *)
Definition taskIds_at (bs : list Board.t) (i j : nat) : option (list string) :=
  b ← bs !! i; c ← Board.columns b !! j; Some (Column.taskIds c).

(** ** Reading a fetch *)

(** The key a fetched task is filed under. *)
Definition fetched_key (t : Task.t) : string :=
  js_key (Task.id (fetched_task t)).

(** The status is the id of some column of the list. *)
Definition names_a_column (status : option string) (cols : list Column.t)
    : bool :=
  existsb (λ c, bool_decide (Some (Column.id c) = status)) cols.

(** The columns as a fetch leaves them, said directly: a column lists, in
    the order of the response, the fetched tasks whose status is its id;
    a column whose id an earlier column already has lists nothing. *)
Fixpoint refilled (data : list Task.t) (seen : list string)
    (cols : list Column.t) : list Column.t :=
  match cols with
  | [] => []
  | c :: rest =>
      Column.with_taskIds c
        (if bool_decide (Column.id c ∈ seen) then []
         else map fetched_key
                (filter (λ t, Task.status t = Some (Column.id c)) data))
      :: refilled data (Column.id c :: seen) rest
  end.

(** A page of tasks as the server sends them. *)
Definition sample_page : list Task.t :=
  [ Task.mk (Some "t2") None (Some "Task t2") (Some "") (Some "done") None
      (Some 0) (Some 0) None (Some "B1") (Some 0);
    Task.mk (Some "t3") None (Some "Task t3") (Some "") (Some "todo") None
      (Some 0) (Some 0) None (Some "B1") (Some 1);
    Task.mk (Some "t4") None (Some "Task t4") (Some "") (Some "archived") None
      (Some 0) (Some 0) None (Some "B1") (Some 2) ].

(** ** Reading a tick, whatever fails *)

(** What one or more steps of a tick may have done to the server between
    [s] and [s']: the collections of tasks and boards and the rooms are as
    they were; notifications and emits were only appended; every appended
    notification is an unread [task_deadline] made at [now] for one of the
    [entries] that has its board and had no such notification; every
    appended emit carries one of them to the personal room of its
    recipient; and no key went beyond one notification unless it was there
    already. *)
Definition tick_extends (io : bool) (now : Z)
    (entries : list (TaskDoc.t * option BoardDoc.t)) (s s' : Server) : Prop :=
  task_docs s' = task_docs s
  ∧ board_docs s' = board_docs s
  ∧ rooms s' = rooms s
  ∧ ∃ added sent,
      notification_docs s' = (notification_docs s ++ added)%list
      ∧ emitted s' = (emitted s ++ sent)%list
      ∧ Forall (λ n,
          Notification.type_ n = Notification.task_deadline
          ∧ Notification.read n = false
          ∧ Notification.createdAt n = now
          ∧ ∃ t b, (t, Some b) ∈ entries
                   ∧ Notification.userId n = TaskDoc.userId t
                   ∧ Notification.taskId n = Some (TaskDoc._id t)
                   ∧ Notification.boardId n = Some (BoardDoc._id b)
                   ∧ deadline_count (TaskDoc.userId t) (TaskDoc._id t) s = 0%nat)
          added
      ∧ Forall (λ e,
          io = true
          ∧ emit_event e = "new_notification"
          ∧ emit_payload e ∈ added
          ∧ emit_room e = "user:" +:+ Notification.userId (emit_payload e))
          sent
      ∧ ∀ u tid,
          deadline_count u tid s' = deadline_count u tid s
          ∨ (deadline_count u tid s = 0%nat ∧ deadline_count u tid s' = 1%nat).

(** The entries a tick works through. *)
Definition due_entries (next_day : Z → Z) (now : Z) (s : Server)
    : list (TaskDoc.t * option BoardDoc.t) :=
  map (λ t, (t, populate (board_docs s) t))
    (List.filter (due_soon next_day now) (task_docs s)).


(** Emitting fails, the store works. *)
Definition emit_fails (op : Op) : bool :=
  match op with OpEmit _ => true | _ => false end.

(** ** Client events and access checks *)

(** What a connected client may send ([io.on('connection', ...)]). *)
Inductive ClientEvent :=
| JoinBoard (boardId : string)
| JoinUser (userId : string).

Definition on_client_event (sock : Socket) (ev : ClientEvent) (s : Server)
    : Server :=
  match ev with
  | JoinBoard boardId => on_join_board sock boardId s
  | JoinUser userId => on_join_user sock userId s
  end.

(** The events of one session, handled in the order they arrive. *)
Definition handle_events (sock : Socket) (evs : list ClientEvent) (s : Server)
    : Server :=
  fold_left (λ s ev, on_client_event sock ev s) evs s.

Definition room_of (ev : ClientEvent) : string :=
  match ev with
  | JoinBoard boardId => "board:" +:+ boardId
  | JoinUser userId => "user:" +:+ userId
  end.

(** The access checks of [routes/tasks.js]. *)

(** [board.members.find(m => m.id && m.id.equals(req.user._id))] *)
Definition userMember (b : BoardDoc.t) (user : string) : option Member.t :=
  List.find (λ m, bool_decide (Member.id m = Some user)) (BoardDoc.members b).

(** GET [/board/:boardId]: refused when
    [!board.isPublic && !isMember && !isOwner]. *)
Definition may_read (b : BoardDoc.t) (user : string) : bool :=
  negb (negb (BoardDoc.isPublic b) && negb (isMember b user)
        && negb (isOwner b user)).

(** POST [/] and PUT [/:id]:
    [isAdmin = isOwner || (userMember && userMember.role === 'admin')]. *)
Definition may_write (b : BoardDoc.t) (user : string) : bool :=
  isOwner b user
  || match userMember b user with
     | Some m => bool_decide (Member.role m = "admin")
     | None => false
     end.

(** DELETE [/:id]: refused when [!isOwner && !isAdmin], with
    [isAdmin = board.members.some(m => m.id && m.id.equals(user)
                                       && m.role === 'admin')]. *)
Definition may_delete (b : BoardDoc.t) (user : string) : bool :=
  negb (negb (isOwner b user)
        && negb (existsb (λ m, bool_decide (Member.id m = Some user)
                               && bool_decide (Member.role m = "admin"))
                   (BoardDoc.members b))).

(** POST [/:id/complete]: refused when [!isMember && !isOwnerOrAdmin]. *)
Definition may_complete (b : BoardDoc.t) (user : string) : bool :=
  negb (negb (isMember b user)
        && negb (isOwner b user
                 || existsb (λ m, bool_decide (Member.id m = Some user)
                                  && bool_decide (Member.role m = "admin"))
                      (BoardDoc.members b))).

(** The same board with the invitation states rewritten. *)
Definition with_statuses (f : Member.t → string) (b : BoardDoc.t) : BoardDoc.t :=
  BoardDoc.mk (BoardDoc._id b) (BoardDoc.name b) (BoardDoc.isPublic b)
    (BoardDoc.ownerId b)
    (map (λ m, Member.mk (Member.id m) (Member.name m) (Member.email m)
                 (Member.role m) (f m))
       (BoardDoc.members b)).

(** How often the member list carries a user. *)
Definition listed (b : BoardDoc.t) (user : string) : nat :=
  length (List.filter (λ m, bool_decide (Member.id m = Some user))
            (BoardDoc.members b)).

(** A board that lists [u3] twice, first as member, then as admin. *)
Definition twice_listed_board : BoardDoc.t :=
  BoardDoc.mk "B2" "Release" false "u1"
    [ Member.mk (Some "u3") "Cleo" "cleo@example.org" "member" "active";
      Member.mk (Some "u3") "Cleo" "cleo@example.org" "admin" "pending" ].

(** ** The board view ([KanbanBoard]) *)

Section KanbanBoard.

(** [Object.values(tasks)]: the task objects of the store, each once, in
    the order the engine enumerates the keys. The map of the model keeps no
    such order, so the enumeration is left open. *)
Variable values : gmap string Task.t → list Task.t.

(** The predicate of [Object.values(tasks).filter(...)]. *)
Definition belongs (board : Board.t) (columnId : string) (task : Task.t)
    : bool :=
  bool_decide (Task.boardId task = Some (Board.id board))
  && (bool_decide (Task.columnId task = Some columnId)
      || bool_decide (Task.status task = Some columnId)).

Definition storeTasks (board : Board.t) (tasks : gmap string Task.t)
    (columnId : string) : list Task.t :=
  List.filter (belongs board columnId) (values tasks).

(** [new Map(storeTasks.map(t => [t.id, t])).get(id)]: of several entries
    with one key the last one stays. *)
Definition taskMap_get (store : list Task.t) (taskId : string)
    : option Task.t :=
  List.find (λ t, bool_decide (Task.id t = Some taskId)) (rev store).

(** Step 1: the tasks named by [column.taskIds], in that order. *)
Definition ordered_tasks (store : list Task.t) (taskIds : list string)
    : list Task.t :=
  omap (taskMap_get store) taskIds.

(** [processedIds.has(task.id)] after step 1. *)
Definition processed (store : list Task.t) (taskIds : list string)
    (task : Task.t) : bool :=
  match Task.id task with
  | Some i => bool_decide (i ∈ taskIds) && bool_decide (is_Some (taskMap_get store i))
  | None => false
  end.

(** Step 2: the tasks of the store that step 1 did not place. *)
Definition remaining_tasks (store : list Task.t) (taskIds : list string)
    : list Task.t :=
  List.filter (λ task, negb (processed store taskIds task)) store.

(** [filteredTaskIds.includes(task.id)] *)
Definition passes (ids : list string) (task : Task.t) : bool :=
  match Task.id task with
  | Some i => bool_decide (i ∈ ids)
  | None => false
  end.

(** [getColumnTasks(columnId)], for the board shown and the search filter
    in force (none, or a list of ids). *)
Definition getColumnTasks (board : Board.t) (tasks : gmap string Task.t)
    (filteredTaskIds : option (list string)) (columnId : string)
    : list Task.t :=
  match List.find (λ c, bool_decide (Column.id c = columnId))
          (Board.columns board) with
  | None => []
  | Some column =>
      let store := storeTasks board tasks columnId in
      let columnTasks :=
        (ordered_tasks store (Column.taskIds column)
         ++ remaining_tasks store (Column.taskIds column))%list in
      match filteredTaskIds with
      | None => columnTasks
      | Some [] => []
      | Some ids => List.filter (passes ids) columnTasks
      end
  end.

End KanbanBoard.

(** Every task object sits under the key that is its [id]. *)
Definition well_keyed (m : gmap string Task.t) : Prop :=
  map_Forall (λ k task, Task.id task = Some k) m.

#[global] Instance well_keyed_dec m : Decision (well_keyed m).
Proof. unfold well_keyed. apply _. Defined.

(** How many cards of a rendered column carry the id. *)
Definition shown_count (taskId : string) (l : list Task.t) : nat :=
  length (List.filter (λ t, bool_decide (Task.id t = Some taskId)) l).

(** One enumeration of the values: in the order of the listing of the map. *)
Definition values_by_key (m : gmap string Task.t) : list Task.t :=
  (map_to_list m).*2.

(** * Properties of the client store *)

Ltac by_evaluation := refine (bool_decide_unpack _ _); vm_compute; exact I.

Ltac refuted_by_evaluation :=
  let H := fresh in
  let H' := fresh in
  intros H; pose proof (bool_decide_pack _ H) as H';
  vm_compute in H'; exact H'.

(** ** Lists of task ids *)

Lemma without_app x l1 l2 : without x (l1 ++ l2) = (without x l1 ++ without x l2)%list.
Proof. unfold without. apply filter_app. Qed.

Lemma without_cons_eq x l : without x (x :: l) = without x l.
Proof. unfold without. rewrite filter_cons. by destruct (decide (x ≠ x)). Qed.

Lemma without_idem x l : without x (without x l) = without x l.
Proof.
  unfold without. induction l as [|y l IH]; [done|].
  rewrite filter_cons. destruct (decide (y ≠ x)) as [Hne|Heq]; [|done].
  rewrite filter_cons. destruct (decide (y ≠ x)); [|done]. by rewrite IH.
Qed.

Lemma without_splice_insert x i l :
  without x (splice_insert i x l) = without x l.
Proof.
  unfold splice_insert. cbv zeta.
  rewrite without_app, without_cons_eq, <- without_app.
  by rewrite take_drop.
Qed.

Lemma without_fresh x l : x ∉ l → without x l = l.
Proof.
  unfold without. induction l as [|y l IH]; [done|].
  intros Hx. apply not_elem_of_cons in Hx as [Hxy Hl].
  rewrite filter_cons.
  destruct (decide (y ≠ x)) as [_|Hn]; [|exfalso; apply Hn; congruence].
  by rewrite IH.
Qed.

Lemma occurrences_app t l1 l2 :
  occurrences t (l1 ++ l2) = (occurrences t l1 + occurrences t l2)%nat.
Proof. unfold occurrences. by rewrite filter_app, length_app. Qed.

Lemma occurrences_cons t y l :
  occurrences t (y :: l)
  = ((if decide (y = t) then 1 else 0) + occurrences t l)%nat.
Proof. unfold occurrences. rewrite filter_cons. by destruct (decide (y = t)). Qed.

Lemma occurrences_insert_at t (k : nat) x l :
  occurrences t (take k l ++ x :: drop k l)
  = ((if decide (x = t) then 1 else 0) + occurrences t l)%nat.
Proof.
  rewrite occurrences_app, occurrences_cons.
  rewrite <- (take_drop k l) at 3. rewrite occurrences_app. lia.
Qed.

Lemma occurrences_splice_insert t i x l :
  occurrences t (splice_insert i x l)
  = ((if decide (x = t) then 1 else 0) + occurrences t l)%nat.
Proof. unfold splice_insert. cbv zeta. apply occurrences_insert_at. Qed.

Lemma occurrences_without_eq t l : occurrences t (without t l) = 0%nat.
Proof.
  unfold occurrences, without. induction l as [|y l IH]; [done|].
  rewrite filter_cons. destruct (decide (y ≠ t)) as [Hne|Heq]; [|done].
  rewrite filter_cons. by destruct (decide (y = t)).
Qed.

Lemma occurrences_without_ne t x l :
  t ≠ x → occurrences t (without x l) = occurrences t l.
Proof.
  intros Htx. unfold occurrences, without. induction l as [|y l IH]; [done|].
  rewrite (filter_cons (λ z, z ≠ x)), (filter_cons (λ z, z = t) y l).
  destruct (decide (y ≠ x)) as [Hne|Heq].
  - rewrite filter_cons. destruct (decide (y = t)); simpl; by rewrite IH.
  - destruct (decide (y = t)) as [->|]; [|done].
    exfalso. by apply Heq.
Qed.

Lemma occurrences_zero t l : occurrences t l = 0%nat ↔ t ∉ l.
Proof.
  unfold occurrences. induction l as [|y l IH].
  { split; [intros _; apply not_elem_of_nil|done]. }
  rewrite filter_cons, not_elem_of_cons.
  destruct (decide (y = t)) as [->|Hne]; simpl.
  - split; [lia|intros [? _]; congruence].
  - rewrite IH. split; [intros ?; split; [congruence|done]|by intros [_ ?]].
Qed.



(** ** Columns and boards *)

Lemma with_taskIds_same c : Column.with_taskIds c (Column.taskIds c) = c.
Proof. by destruct c. Qed.

Lemma with_columns_same b : Board.with_columns b (Board.columns b) = b.
Proof. by destruct b. Qed.

Lemma moveColumn_id t s d i c : Column.id (moveColumn t s d i c) = Column.id c.
Proof. unfold moveColumn. by repeat case_match. Qed.

Lemma moveColumn_idem t s d i c :
  moveColumn t s d i (moveColumn t s d i c) = moveColumn t s d i c.
Proof.
  unfold moveColumn.
  destruct (bool_decide (Column.id c = s)) eqn:Hs,
           (bool_decide (Column.id c = d)) eqn:Hd; simpl;
    rewrite ?Hs, ?Hd; simpl; unfold Column.with_taskIds; simpl;
    rewrite ?without_splice_insert, ?without_idem; reflexivity.
Qed.

(** The moved id ends up once in the destination column, leaves the source
    column, and stays as it was in every other column. *)
Lemma moveColumn_occurrences_moved t s d i c :
  occurrences t (Column.taskIds (moveColumn t s d i c))
  = if bool_decide (Column.id c = d) then 1%nat
    else if bool_decide (Column.id c = s) then 0%nat
    else occurrences t (Column.taskIds c).
Proof.
  unfold moveColumn.
  destruct (bool_decide (Column.id c = s)), (bool_decide (Column.id c = d));
    simpl; rewrite ?occurrences_splice_insert, ?occurrences_without_eq;
    try reflexivity; by destruct (decide (t = t)).
Qed.

Lemma moveColumn_occurrences_other u t s d i c :
  u ≠ t →
  occurrences u (Column.taskIds (moveColumn t s d i c))
  = occurrences u (Column.taskIds c).
Proof.
  intros Hut. unfold moveColumn.
  repeat case_match; simpl;
    rewrite ?occurrences_splice_insert, ?occurrences_without_ne by done;
    try reflexivity; (destruct (decide (t = u)); [congruence|done]).
Qed.

Lemma on_board_id bid f b : Board.id (on_board bid f b) = Board.id b.
Proof. unfold on_board. by case_match. Qed.

Lemma on_board_idem bid f b :
  (∀ c, f (f c) = f c) → on_board bid f (on_board bid f b) = on_board bid f b.
Proof.
  intros Hf. unfold on_board.
  destruct (bool_decide (Some (Board.id b) ≠ bid)) eqn:Hb; simpl; rewrite Hb;
    [done|].
  unfold Board.with_columns; simpl. f_equal.
  rewrite map_map. apply map_ext. auto.
Qed.

Lemma find_board_map bid bid' f bs :
  find_board bid (map (on_board bid' f) bs)
  = on_board bid' f <$> find_board bid bs.
Proof.
  unfold find_board. induction bs as [|b bs IH]; [done|].
  simpl. rewrite on_board_id. case_match; [done|apply IH].
Qed.

Lemma find_board_id bid bs b :
  find_board bid bs = Some b → Some (Board.id b) = bid.
Proof.
  unfold find_board. intros H. apply find_some in H as [_ H].
  by apply bool_decide_eq_true in H.
Qed.

Lemma board_occurrences_zero t b :
  board_occurrences t b = 0%nat ↔ Forall (λ c, t ∉ Column.taskIds c) (Board.columns b).
Proof.
  unfold board_occurrences. induction (Board.columns b) as [|c cols IH]; simpl.
  - split; [constructor|done].
  - rewrite Forall_cons, <- IH, <- occurrences_zero. lia.
Qed.

Lemma board_occurrences_other u t s d i bid b :
  u ≠ t →
  board_occurrences u (on_board bid (moveColumn t s d i) b)
  = board_occurrences u b.
Proof.
  intros Hut. unfold on_board, board_occurrences. case_match; [done|].
  simpl. rewrite map_map. f_equal. apply map_ext. intros c.
  by apply moveColumn_occurrences_other.
Qed.

Lemma sum_moved_columns t s d i cols :
  Forall (λ c, t ∈ Column.taskIds c → Column.id c = s ∨ Column.id c = d) cols →
  sum_list (map (λ c, occurrences t (Column.taskIds (moveColumn t s d i c))) cols)
  = length (filter (λ c, Column.id c = d) cols).
Proof.
  induction 1 as [|c cols Hc _ IH]; [done|].
  simpl. rewrite IH, filter_cons, moveColumn_occurrences_moved.
  destruct (decide (Column.id c = d)) as [Hd|Hd].
  - by rewrite bool_decide_eq_true_2.
  - rewrite (bool_decide_eq_false_2 _ Hd). simpl.
    destruct (bool_decide (Column.id c = s)) eqn:Hs; [done|].
    apply bool_decide_eq_false in Hs.
    assert (occurrences t (Column.taskIds c) = 0%nat) as ->; [|done].
    apply occurrences_zero. intros Hin. destruct (Hc Hin); congruence.
Qed.

Lemma board_occurrences_moved t s d i b :
  names_columns t s d b →
  board_occurrences t (on_board (Some (Board.id b)) (moveColumn t s d i) b)
  = 1%nat.
Proof.
  intros [Hone Hheld]. unfold on_board, board_occurrences.
  rewrite bool_decide_eq_false_2 by (intros H; by apply H).
  simpl. rewrite map_map. by rewrite sum_moved_columns.
Qed.

(** ** moveTask: one call *)

Lemma moved_task_boardId task d : Task.boardId (moved_task task d) = Task.boardId task.
Proof. by destruct task. Qed.

Lemma moved_task_columnId task d : Task.columnId (moved_task task d) = Some d.
Proof. by destruct task. Qed.

Lemma moved_task_id task d : Task.id (moved_task task d) = Task.id task.
Proof. by destruct task. Qed.

Lemma moved_task_status task d : Task.status (moved_task task d) = Some d.
Proof. by destruct task. Qed.

Lemma moved_task_idem task d : moved_task (moved_task task d) d = moved_task task d.
Proof. by destruct task. Qed.

Lemma moveTask_cases t s d i st : moveTask_spec t s d i st (moveTask t s d i st).
Proof.
  unfold moveTask, mbind, prog_bind, get_state.
  destruct (tasks st !! t) as [task|] eqn:Ht.
  - destruct (find_board (Task.boardId task) (boards st)) as [b|] eqn:Hb.
    + by eapply move_applied.
    + by eapply move_no_board.
  - destruct (boards st) eqn:Hbs.
    + by apply move_nothing_loaded.
    + apply move_threw; [done|]. by rewrite Hbs.
Qed.

(** The scenario of the specification: [todo=[t1,t2]], [done=[]] and
    [moveTask(t1, "todo", "done", 0)]; then the deferred write fails with
    [network]. *)
Example moveTask_scenario :
  let moved := moveTask "t1" "todo" "done" 0 sample_state in
  boards (state_after moved) = [sample_board ["t2"] [] ["t1"]]
  ∧ Task.columnId <$> tasks (state_after moved) !! "t1" = Some (Some "done")
  ∧ boards (state_after
              (moveTask_deferred sample_state (Some "tok") "t1" "done" 0
                 (Rejected (WriteFailed network "timeout"))
                 (state_after moved)))
    = [sample_board ["t1"; "t2"] [] []].
Proof. cbv zeta. repeat split; vm_compute; reflexivity. Qed.

(** C10. Applying [moveTask] twice with identical arguments leaves the store
    exactly as applying it once does: the same column lists, in the same
    order, and the same task objects. This holds for every store state and
    every argument, also when the call throws or finds no board. *)
Theorem moveTask_idempotent t s d i st :
  state_after (moveTask t s d i (state_after (moveTask t s d i st)))
  = state_after (moveTask t s d i st).
Proof.
  destruct (moveTask_cases t s d i st)
    as [e Ht Hbs|Ht Hbs|task Ht Hb|task b Ht Hb st'];
    unfold state_after; simpl.
  - destruct (moveTask_cases t s d i st)
      as [e' _ _|_ _|task' _ _|task' b' Ht' _]; [done|done|done|congruence].
  - destruct (moveTask_cases t s d i st)
      as [e' _ _|_ _|task' _ _|task' b' Ht' _]; [done|done|done|congruence].
  - destruct (moveTask_cases t s d i st)
      as [e' _ _|_ _|task' _ _|task' b' Ht' Hb']; [done|done|done|congruence].
  - assert (tasks st' !! t = Some (moved_task task d)) as Ht'
      by apply lookup_insert_eq.
    assert (find_board (Task.boardId (moved_task task d)) (boards st')
            = Some (on_board (Task.boardId task) (moveColumn t s d i) b)) as Hb'.
    { rewrite moved_task_boardId. subst st'. simpl.
      by rewrite find_board_map, Hb. }
    destruct (moveTask_cases t s d i st')
      as [e' Hn _|Hn _|task' Ht2 Hb2|task' b' Ht2 Hb2 st'']; simpl.
    + congruence.
    + congruence.
    + congruence.
    + assert (task' = moved_task task d) as -> by congruence.
      subst st''. rewrite moved_task_idem, moved_task_boardId.
      subst st'. unfold patch_tasks_boards.
      cbn [tasks boards publicBoards currentBoardId loading error].
      rewrite insert_insert_eq. f_equal. rewrite map_map. apply map_ext. intros b0.
      apply on_board_idem, moveColumn_idem.
Qed.

Lemma placed_once_ext a b :
  tasks a = tasks b → boards a = boards b → placed_once a → placed_once b.
Proof. unfold placed_once. by intros -> ->. Qed.

Lemma moveTask_placed_once t s d i st :
  placed_once st → move_fits st t s d →
  placed_once (state_after (moveTask t s d i st)).
Proof.
  intros Hinv Hfit.
  destruct (moveTask_cases t s d i st)
    as [e Ht Hbs|Ht Hbs|task Ht Hb|task b Ht Hb st'];
    unfold state_after; simpl; [done|done|done|].
  unfold move_fits, move_target in Hfit. rewrite Ht in Hfit. simpl in Hfit.
  rewrite Hb in Hfit. simpl in Hfit.
  pose proof (find_board_id _ _ _ Hb) as Hid.
  assert (∀ u task', tasks st !! u = Some task' →
            board_occurrences u
              <$> find_board (Task.boardId task') (boards st') = Some 1%nat)
    as Hall.
  { intros u task' Hu. subst st'. simpl. rewrite find_board_map.
    destruct (decide (u = t)) as [->|Hne].
    - assert (task' = task) as -> by congruence.
      rewrite Hb. simpl. f_equal. rewrite <- Hid.
      by apply board_occurrences_moved.
    - specialize (Hinv u task' Hu). simpl in Hinv.
      destruct (find_board (Task.boardId task') (boards st)) as [b'|];
        [|done].
      simpl in *. by rewrite board_occurrences_other. }
  unfold placed_once. subst st'. simpl. apply map_Forall_insert_2.
  - rewrite moved_task_boardId. by apply (Hall t task).
  - intros u task' Hu. by apply Hall.
Qed.

(** A call on a task the store knows, with its board loaded: one state is
    published, the one the call leaves, and the write is left to a timer. *)
Lemma moveTask_known t s d i st task b :
  tasks st !! t = Some task →
  find_board (Task.boardId task) (boards st) = Some b →
  let st' := patch_tasks_boards (<[t := moved_task task d]> (tasks st))
               (map (on_board (Task.boardId task) (moveColumn t s d i))
                  (boards st)) st in
  moveTask t s d i st = (Returned (Some st), st', [Published st'; SetTimeout 0]).
Proof.
  intros Ht Hb. unfold moveTask, mbind, prog_bind, get_state.
  by rewrite Ht, Hb.
Qed.

(** A call on a task the store does not know, or whose board is not
    loaded, does nothing. *)
Lemma moveTask_unknown t s d i st :
  move_target st t = None →
  trace_of (moveTask t s d i st) = []
  ∧ state_after (moveTask t s d i st) = st
  ∧ ∀ orig, result_of (moveTask t s d i st) ≠ Returned (Some orig).
Proof.
  intros Hno. unfold move_target in Hno.
  destruct (moveTask_cases t s d i st)
    as [e Ht Hbs|Ht Hbs|task Ht Hb|task b Ht Hb st'];
    unfold trace_of, state_after, result_of; simpl; try done.
  rewrite Ht in Hno. simpl in Hno. congruence.
Qed.

Lemma filter_moved_columns t s d i x cols :
  length (filter (λ c, Column.id c = x) (map (moveColumn t s d i) cols))
  = length (filter (λ c, Column.id c = x) cols).
Proof.
  induction cols as [|c cols IH]; [done|].
  cbn [map]. rewrite !filter_cons, moveColumn_id.
  destruct (decide (Column.id c = x)); simpl; by rewrite IH.
Qed.

(** Where a correctly addressed move leaves the task. *)
Lemma moveTask_sits t s d i st b :
  move_target st t = Some b →
  names_columns t s d b →
  ∃ b', move_target (state_after (moveTask t s d i st)) t = Some b'
        ∧ Board.id b' = Board.id b
        ∧ sits_in t d b'
        ∧ length (filter (λ c, Column.id c = d) (Board.columns b')) = 1%nat.
Proof.
  intros Htarget [Hone Hlists]. unfold move_target in Htarget.
  destruct (tasks st !! t) as [task|] eqn:Ht; [|done]. simpl in Htarget.
  pose proof (moveTask_known t s d i st task b Ht Htarget) as Hrun.
  cbv zeta in Hrun. rewrite Hrun. clear Hrun.
  unfold state_after, move_target.
  cbn [fst snd tasks boards patch_tasks_boards].
  rewrite lookup_insert_eq. cbn [mbind option_bind].
  rewrite moved_task_boardId, find_board_map, Htarget.
  cbn [fmap option_fmap option_map].
  pose proof (find_board_id _ _ _ Htarget) as Hid.
  eexists. split; [reflexivity|].
  unfold on_board. rewrite bool_decide_eq_false_2 by (intros H; by apply H).
  cbn [Board.with_columns Board.id Board.columns].
  split; [done|]. split; [|by rewrite filter_moved_columns].
  unfold sits_in. apply Forall_fmap.
  eapply Forall_impl; [exact Hlists|]. intros c Hc. simpl.
  rewrite moveColumn_occurrences_moved, moveColumn_id.
  destruct (bool_decide (Column.id c = d)) eqn:Hd; [done|].
  destruct (bool_decide (Column.id c = s)) eqn:Hs; [done|].
  apply occurrences_zero. intros Hin. destruct (Hc Hin) as [H|H].
  - by apply bool_decide_eq_false in Hs.
  - by apply bool_decide_eq_false in Hd.
Qed.

(** The deferred callback either leaves the store alone (the write went
    through) or puts the snapshot back. *)
Lemma moveTask_deferred_cases orig token t d i reply later :
  let run := moveTask_deferred orig token t d i reply later in
  (state_after run = later ∧ published (trace_of run) = []
   ∧ ¬ write_failed token reply)
  ∨ (∃ msg, state_after run
            = patch_tasks_boards_error (tasks orig) (boards orig) msg later
     ∧ published (trace_of run) = [state_after run]
     ∧ write_failed token reply).
Proof.
  unfold moveTask_deferred, try_catch, write_failed.
  destruct token as [tok|]; [destruct reply as [[]|e]|]; simpl.
  - left. split; [done|]. split; [done|]. intros [?|[? ?]]; congruence.
  - right. eexists. split; [reflexivity|]. split; [done|]. right. eauto.
  - right. eexists. split; [reflexivity|]. split; [done|]. by left.
Qed.

(** ** moveTask: sequences of calls and deferred writes *)

Lemma published_app tr1 tr2 :
  published (tr1 ++ tr2) = (published tr1 ++ published tr2)%list.
Proof.
  induction tr1 as [|[] tr1 IH]; simpl; rewrite ?IH; reflexivity.
Qed.

Lemma move_step_call c cl :
  (move_step (Call c) cl).2
  = trace_of (moveTask (call_task c) (call_source c) (call_dest c)
                (call_index c) (store cl))
  ∧ store (move_step (Call c) cl).1
    = state_after (moveTask (call_task c) (call_source c) (call_dest c)
                     (call_index c) (store cl)).
Proof.
  unfold move_step, trace_of, state_after.
  by destruct (moveTask _ _ _ _ _) as [[[[orig|]|e] st] tr].
Qed.

Lemma move_step_call_ok c cl :
  client_ok cl →
  move_fits (store cl) (call_task c) (call_source c) (call_dest c) →
  client_ok (move_step (Call c) cl).1
  ∧ Forall placed_once (published (move_step (Call c) cl).2).
Proof.
  intros [Hst Htm] Hfit.
  pose proof (moveTask_placed_once _ _ _ (call_index c) _ Hst Hfit) as Hnew.
  unfold move_step.
  destruct (moveTask_cases (call_task c) (call_source c) (call_dest c)
              (call_index c) (store cl))
    as [e Ht Hbs|Ht Hbs|task Ht Hb|task b Ht Hb st'];
    unfold state_after, trace_of, client_ok in *; simpl in *.
  - by repeat split.
  - by repeat split.
  - by repeat split.
  - repeat split; [done| |by repeat constructor].
    apply Forall_app. split; [done|]. by repeat constructor.
Qed.

Lemma move_step_fire_ok n token reply cl :
  client_ok cl →
  client_ok (move_step (Fire n token reply) cl).1
  ∧ Forall placed_once (published (move_step (Fire n token reply) cl).2).
Proof.
  intros [Hst Htm]. unfold move_step.
  destruct (timers cl !! n) as [p|] eqn:Hp; simpl; [|by repeat split].
  assert (placed_once (snapshot p)) as Hsnap.
  { eapply (Forall_lookup_1 _ _ _ _ Htm Hp). }
  assert (Forall (λ p, placed_once (snapshot p)) (delete n (timers cl))) as Hdel.
  { by apply Forall_delete. }
  destruct (moveTask_deferred_cases (snapshot p) token
              (call_task (pending_call p)) (call_dest (pending_call p))
              (call_index (pending_call p)) reply (store cl))
    as [(Hs & Hpub & _)|(msg & Hs & Hpub & _)]; simpl in *.
  - rewrite Hs, Hpub. by repeat split.
  - assert (placed_once
              (state_after
                 (moveTask_deferred (snapshot p) token
                    (call_task (pending_call p)) (call_dest (pending_call p))
                    (call_index (pending_call p)) reply (store cl)))) as Hok.
    { rewrite Hs. by apply (placed_once_ext (snapshot p)). }
    rewrite Hpub. unfold client_ok. simpl.
    repeat split; [done|done|by repeat constructor].
Qed.

Lemma run_moves_cons e rest cl :
  run_moves (e :: rest) cl
  = ((run_moves rest (move_step e cl).1).1,
     ((move_step e cl).2 ++ (run_moves rest (move_step e cl).1).2)%list).
Proof.
  simpl. destruct (move_step e cl) as [cl1 tr1]. simpl.
  by destruct (run_moves rest cl1).
Qed.

Lemma run_moves_app pre post : ∀ cl,
  run_moves (pre ++ post) cl
  = ((run_moves post (run_moves pre cl).1).1,
     ((run_moves pre cl).2 ++ (run_moves post (run_moves pre cl).1).2)%list).
Proof.
  induction pre as [|e pre IH]; intros cl.
  - simpl. by destruct (run_moves post cl).
  - rewrite <- app_comm_cons, !run_moves_cons, IH. simpl.
    by rewrite app_assoc.
Qed.

(** A well-addressed run keeps the store and the waiting snapshots in
    order, and what is left of the run is still well addressed. *)
Lemma run_moves_ok pre : ∀ rest cl,
  client_ok cl →
  well_addressed (pre ++ rest) cl →
  client_ok (run_moves pre cl).1
  ∧ well_addressed rest (run_moves pre cl).1
  ∧ Forall placed_once (published (run_moves pre cl).2).
Proof.
  induction pre as [|e pre IH]; intros rest cl Hok Hsteps.
  - simpl. split; [done|]. split; [done|constructor].
  - rewrite <- app_comm_cons in Hsteps. simpl in Hsteps.
    destruct Hsteps as [Hfit Hrest].
    assert (client_ok (move_step e cl).1
            ∧ Forall placed_once (published (move_step e cl).2)) as [Hok1 Hpub1].
    { destruct e as [c|n token reply];
        [by apply move_step_call_ok|by apply move_step_fire_ok]. }
    destruct (IH rest _ Hok1 Hrest) as (IH1 & IH2 & IH3).
    rewrite run_moves_cons. simpl. split; [done|]. split; [done|].
    rewrite published_app. apply Forall_app. by split.
Qed.

(** C1 (amended). Start from a store in which every task is listed exactly
    once by the columns of its board, with the same true of the snapshots
    of the writes still waiting. Run any sequence of [moveTask] calls and
    of deferred callbacks, each call naming its columns correctly in the
    state it is made in. Then every state the run publishes lists every
    task exactly once, and so does the final state. Moreover every call of
    the run, made on a task of the map whose board is loaded, publishes
    exactly one state, the one it leaves behind: in it every task is listed
    once, the moved task's [columnId] is the destination, and on its board
    the one column called like the destination lists it, once, and no
    other column does. A call on a task that is unknown, or whose board is
    not loaded, publishes nothing and leaves the store as it is. *)
Theorem moveTask_sequences_keep_tasks_placed steps cl :
  placed_once (store cl) →
  Forall (λ p, placed_once (snapshot p)) (timers cl) →
  well_addressed steps cl →
  Forall placed_once (published (run_moves steps cl).2)
  ∧ placed_once (store (run_moves steps cl).1)
  ∧ ∀ pre c post,
      steps = (pre ++ Call c :: post)%list →
      let before := run_moves pre cl in
      let call := moveTask (call_task c) (call_source c) (call_dest c)
                    (call_index c) (store before.1) in
      (run_moves steps cl).2
      = (before.2 ++ trace_of call
         ++ (run_moves post (move_step (Call c) before.1).1).2)%list
      ∧ (move_target (store before.1) (call_task c) = None →
         trace_of call = [] ∧ state_after call = store before.1)
      ∧ ∀ b,
          move_target (store before.1) (call_task c) = Some b →
          published (trace_of call) = [state_after call]
          ∧ placed_once (state_after call)
          ∧ Task.columnId <$> tasks (state_after call) !! call_task c
            = Some (Some (call_dest c))
          ∧ ∃ b', move_target (state_after call) (call_task c) = Some b'
                  ∧ Board.id b' = Board.id b
                  ∧ sits_in (call_task c) (call_dest c) b'
                  ∧ length (filter (λ col, Column.id col = call_dest c)
                              (Board.columns b')) = 1%nat.
Proof.
  intros Hst Htm Hsteps.
  assert (client_ok cl) as Hok by done. clear Hst Htm.
  split; [|split].
  - rewrite <- (app_nil_r steps) in Hsteps.
    by destruct (run_moves_ok steps [] cl Hok Hsteps) as (_ & _ & ?).
  - rewrite <- (app_nil_r steps) in Hsteps.
    by destruct (run_moves_ok steps [] cl Hok Hsteps) as ([? _] & _ & _).
  - intros pre c post -> before call.
    destruct (run_moves_ok pre (Call c :: post) cl Hok Hsteps)
      as ([Hst Htm] & [Hfit _] & _).
    subst before call.
    split; [|split].
    + rewrite run_moves_app, run_moves_cons. cbn [fst snd].
      by rewrite (proj1 (move_step_call c (run_moves pre cl).1)).
    + intros Hno.
      by destruct (moveTask_unknown (call_task c) (call_source c) (call_dest c)
                     (call_index c) _ Hno) as (? & ? & _).
    + intros b Hb. unfold move_fits in Hfit. rewrite Hb in Hfit. simpl in Hfit.
      split; [|split; [|split]].
      * unfold move_target in Hb.
        destruct (tasks (store (run_moves pre cl).1) !! call_task c)
          as [task|] eqn:Ht; [|done].
        simpl in Hb.
        pose proof (moveTask_known (call_task c) (call_source c) (call_dest c)
                      (call_index c) _ task b Ht Hb) as Hrun.
        cbv zeta in Hrun. by rewrite Hrun.
      * apply moveTask_placed_once; [done|].
        unfold move_fits. by rewrite Hb.
      * unfold move_target in Hb.
        destruct (tasks (store (run_moves pre cl).1) !! call_task c)
          as [task|] eqn:Ht; [|done].
        simpl in Hb.
        pose proof (moveTask_known (call_task c) (call_source c) (call_dest c)
                      (call_index c) _ task b Ht Hb) as Hrun.
        cbv zeta in Hrun. rewrite Hrun.
        unfold state_after. cbn [fst snd tasks patch_tasks_boards].
        rewrite lookup_insert_eq. cbn [fmap option_fmap option_map].
        by rewrite moved_task_columnId.
      * by apply moveTask_sits.
Qed.

(** The sequence [sample_moves] on [sample_state] meets the hypotheses of
    the theorem above. *)
Lemma moveTask_sequences_witness :
  placed_once sample_state
  ∧ well_addressed sample_moves (mkClient sample_state [])
  ∧ placed_once (store (run_moves sample_moves (mkClient sample_state [])).1).
Proof.
  assert (placed_once sample_state) as H1
    by (by_evaluation).
  assert (well_addressed sample_moves (mkClient sample_state [])) as H2
    by (by_evaluation).
  split; [exact H1|split; [exact H2|]].
  exact (proj1 (proj2 (moveTask_sequences_keep_tasks_placed sample_moves
                         (mkClient sample_state []) H1 (List.Forall_nil _) H2))).
Defined.

(** C1 as stated fails: [t1] sits in [todo]; a move that names
    [in-progress] as its source leaves it in [todo] and adds it to [done]. *)
Lemma moveTask_wrong_source_duplicates :
  placed_once sample_state
  ∧ boards (state_after (moveTask "t1" "in-progress" "done" 0 sample_state))
    = [sample_board ["t1"; "t2"] [] ["t1"]]
  ∧ ¬ placed_once (state_after (moveTask "t1" "in-progress" "done" 0 sample_state)).
Proof.
  split; [by_evaluation|].
  split; [vm_compute; reflexivity|].
  refuted_by_evaluation.
Qed.

(** A destination that is not a column of the board is the other way to
    lose a task: the id leaves its column and enters none. *)
Example moveTask_unknown_destination_unlists :
  boards (state_after (moveTask "t1" "todo" "archive" 0 sample_state))
  = [sample_board ["t2"] [] []]
  ∧ ¬ placed_once (state_after (moveTask "t1" "todo" "archive" 0 sample_state)).
Proof. split; [vm_compute; reflexivity|refuted_by_evaluation]. Qed.

(** ** createTask and moveTask: a write that fails *)

Lemma prune_append_column cid t c :
  t ∉ Column.taskIds c → pruneColumn t (appendColumn cid t c) = c.
Proof.
  intros Ht. unfold pruneColumn, appendColumn.
  case_match; simpl; unfold Column.with_taskIds; simpl.
  - rewrite without_app, without_cons_eq, without_fresh by done.
    rewrite app_nil_r. by destruct c.
  - rewrite without_fresh by done. by destruct c.
Qed.

Lemma prune_append_boards bid cid t bs :
  nowhere t bs →
  map (on_board bid (pruneColumn t)) (map (on_board bid (appendColumn cid t)) bs)
  = bs.
Proof.
  intros Hno. rewrite map_map. rewrite <- (map_id bs) at 2.
  apply map_ext_in. intros b Hb.
  eapply Forall_forall in Hno; [|by apply list_elem_of_In].
  apply board_occurrences_zero in Hno.
  unfold on_board. destruct (bool_decide (Some (Board.id b) ≠ bid)) eqn:Hid;
    simpl; rewrite ?Hid; [done|].
  unfold Board.with_columns. simpl. rewrite map_map.
  rewrite <- (with_columns_same b) at 5. unfold Board.with_columns. f_equal.
  rewrite <- (map_id (Board.columns b)) at 2.
  apply map_ext_in. intros c Hc.
  eapply Forall_forall in Hno; [|by apply list_elem_of_In].
  by apply prune_append_column.
Qed.

(** A create whose write fails leaves behind the optimistic state with the
    temporary id pruned from the map and from the target board. *)
Lemma createTask_failed token data now reply st :
  write_failed token reply →
  let tempId := temp_id now in
  ∃ msg,
    state_after (createTask token data now reply st)
    = patch_tasks_boards_error
        (delete tempId (<[tempId := optimistic_task data tempId now]> (tasks st)))
        (map (on_board (Task.boardId data) (pruneColumn tempId))
           (map (on_board (Task.boardId data)
                   (appendColumn (Task.columnId data) tempId))
              (boards st)))
        msg st
    ∧ existsb is_refetch (trace_of (createTask token data now reply st)) = false.
Proof.
  intros Hfail. unfold createTask, createTask_optimistic, try_catch,
    createTask_request, createTask_rollback, mbind, prog_bind, mret, prog_ret,
    set_state, perform, throw, state_after, trace_of.
  destruct token as [tok|]; simpl.
  - destruct reply as [r|e]; simpl.
    + destruct Hfail as [?|[? ?]]; congruence.
    + by eexists.
  - by eexists.
Qed.

(** C2 (amended). When the temporary id of a [createTask] is fresh (absent
    from the task map and from every column list), its write fails, and no
    other mutation of the projection ran between the optimistic insert and
    the rollback, the projection after the rollback equals the projection
    before the call: this holds for the action run in one go, and for its
    [catch] block run later on any store whose projection is still the one
    the optimistic insert left. When the write of a [moveTask] fails,
    whatever the store has become in the meantime, the projection is put
    back to the snapshot taken at the call, which is the pre-move state. *)
Theorem failed_write_restores_projection st token data now
    (reply : Settled Task.t) t s d i (reply' : Settled unit) later :
  tasks st !! temp_id now = None →
  nowhere (temp_id now) (boards st) →
  write_failed token reply →
  write_failed token reply' →
  projection (state_after (createTask token data now reply st)) = projection st
  ∧ (∀ e waiting,
       projection waiting
       = projection (state_after (createTask_optimistic data now st)) →
       projection (state_after
                     (createTask_rollback data (temp_id now) e waiting))
       = projection st)
  ∧ ∀ orig,
      result_of (moveTask t s d i st) = Returned (Some orig) →
      orig = st
      ∧ projection (state_after
                      (moveTask_deferred orig token t d i reply' later))
        = projection st.
Proof.
  intros Hfresh Hno Hfail Hfail'. split; [|split].
  - destruct (createTask_failed token data now reply st Hfail) as (msg & -> & _).
    unfold projection. simpl.
    by rewrite delete_insert_eq, delete_id, prune_append_boards.
  - intros e waiting Hsame. unfold projection, state_after in *.
    simpl in *. injection Hsame as -> ->.
    by rewrite delete_insert_eq, delete_id, prune_append_boards.
  - intros orig Hres.
    assert (orig = st) as ->.
    { destruct (moveTask_cases t s d i st); unfold result_of in Hres;
        simpl in Hres; congruence. }
    split; [done|].
    destruct (moveTask_deferred_cases st token t d i reply' later)
      as [(_ & _ & Hok)|(msg & -> & _)]; [done|done].
Qed.

(** A create on [sample_state] whose write times out. *)
Lemma rollback_witness :
  projection (state_after
                (createTask (Some "tok") new_task 123
                   (Rejected (WriteFailed network "timeout")) sample_state))
  = projection sample_state.
Proof.
  refine (proj1 (failed_write_restores_projection sample_state (Some "tok")
                   new_task 123 (Rejected (WriteFailed network "timeout"))
                   "t1" "todo" "done" 0
                   (Rejected (WriteFailed network "timeout")) sample_state
                   _ _ _ _)).
  - vm_compute. reflexivity.
  - by_evaluation.
  - right. eexists. reflexivity.
  - right. eexists. reflexivity.
Defined.

(** C2 as stated fails: two creates within one millisecond share their
    temporary id. The projection the second one starts from holds the
    first one's optimistic task; when the second write fails, its rollback
    removes that task as well. *)
Lemma createTask_rollback_drops_colliding_task :
  let before := state_after (createTask_optimistic new_task 5 sample_state) in
  let second := createTask (Some "tok") second_task 5
                  (Rejected (WriteFailed network "timeout")) before in
  tasks before !! "temp-5" = Some (optimistic_task new_task "temp-5" 5)
  ∧ boards before = [sample_board ["t1"; "t2"; "temp-5"] [] []]
  ∧ tasks (state_after second) !! "temp-5" = None
  ∧ boards (state_after second) = [sample_board ["t1"; "t2"] [] []]
  ∧ projection (state_after second) ≠ projection before.
Proof.
  cbv zeta. repeat match goal with |- _ ∧ _ => split end;
    try (vm_compute; reflexivity).
  intros H. apply (f_equal (λ p, p.1 !! "temp-5")) in H.
  vm_compute in H. discriminate H.
Qed.

(** Why the create needs the store to itself. If another task is dragged
    while the create is in flight, the rollback keeps that move, so the
    projection is not the one before the create. If the optimistic task
    itself is dragged, the failing create prunes it, and when the move's own
    write fails afterwards its snapshot brings the temporary task back. *)
Example createTask_rollback_after_a_move :
  let timeout := WriteFailed network "timeout" in
  let s1 := state_after (createTask_optimistic new_task 123 sample_state) in
  let other := state_after
                 (createTask_rollback new_task "temp-123" timeout
                    (state_after (moveTask "t1" "todo" "done" 0 s1))) in
  let s2 := state_after (moveTask "temp-123" "todo" "done" 0 s1) in
  let s3 := state_after (createTask_rollback new_task "temp-123" timeout s2) in
  let s4 := state_after
              (moveTask_deferred s1 (Some "tok") "temp-123" "done" 0
                 (Rejected timeout) s3) in
  boards other = [sample_board ["t2"] [] ["t1"]]
  ∧ projection other ≠ projection sample_state
  ∧ tasks s3 !! "temp-123" = None
  ∧ boards s4 = [sample_board ["t1"; "t2"; "temp-123"] [] []]
  ∧ tasks s4 !! "temp-123" = Some (optimistic_task new_task "temp-123" 123)
  ∧ projection s4 ≠ projection sample_state.
Proof.
  cbv zeta. repeat match goal with |- _ ∧ _ => split end;
    try (vm_compute; reflexivity).
  - intros H. apply (f_equal (λ p, Board.columns <$> p.2)) in H.
    vm_compute in H. discriminate H.
  - intros H. apply (f_equal (λ p, p.1 !! "temp-123")) in H.
    vm_compute in H. discriminate H.
Qed.

(** C3 (amended). The store does not look at the kind of a failed write:
    a rejected [createTask] (with a fresh temporary id) is rolled back and a
    rejected deferred move puts its snapshot back for [network],
    [not_authorized] and [not_found] alike, the run is the same as for
    [network], and no failure makes the store refetch anything. *)
Theorem every_failure_rolls_back_without_refetch st tok data now kind msg
    t d i orig later :
  tasks st !! temp_id now = None →
  nowhere (temp_id now) (boards st) →
  let create k := createTask (Some tok) data now (Rejected (WriteFailed k msg)) st in
  let deferred k :=
    moveTask_deferred orig (Some tok) t d i (Rejected (WriteFailed k msg)) later in
  projection (state_after (create kind)) = projection st
  ∧ existsb is_refetch (trace_of (create kind)) = false
  ∧ create kind = create network
  ∧ projection (state_after (deferred kind)) = projection orig
  ∧ existsb is_refetch (trace_of (deferred kind)) = false
  ∧ deferred kind = deferred network.
Proof.
  intros Hfresh Hno create deferred.
  assert (write_failed (Some tok) (Rejected (A:=Task.t) (WriteFailed kind msg)))
    as Hfail by (right; eauto).
  destruct (createTask_failed (Some tok) data now _ st Hfail) as (m & Hst & Htr).
  split; [|by repeat split].
  subst create. cbv beta. rewrite Hst. unfold projection. simpl.
  by rewrite delete_insert_eq, delete_id, prune_append_boards.
Qed.

(** A create on [sample_state] answered by [not_found]. *)
Lemma every_failure_rolls_back_witness :
  projection (state_after
                (createTask (Some "tok") new_task 123
                   (Rejected (WriteFailed not_found "Board not found"))
                   sample_state))
  = projection sample_state.
Proof.
  refine (proj1 (every_failure_rolls_back_without_refetch sample_state "tok"
                   new_task 123 not_found "Board not found" "t1" "done" 0
                   sample_state sample_state _ _)).
  - vm_compute. reflexivity.
  - by_evaluation.
Defined.

(** C3 as stated fails: a create refused as [not_authorized] is rolled
    back, and the run fetches nothing. *)
Lemma not_authorized_is_rolled_back_not_refetched :
  let run := createTask (Some "tok") new_task 123
               (Rejected (WriteFailed not_authorized "Only board admins or owners can create tasks"))
               sample_state in
  tasks (state_after (createTask_optimistic new_task 123 sample_state))
    !! "temp-123" ≠ None
  ∧ projection (state_after run) = projection sample_state
  ∧ existsb is_refetch (trace_of run) = false.
Proof.
  cbv zeta. split; [vm_compute; discriminate|].
  split; vm_compute; reflexivity.
Qed.

(** ** createTask: a write that succeeds *)









(** ** Which actions are optimistic *)

(** C9 (amended). [createTask] publishes its optimistic task, filed under
    the temporary id and appended to the target column, before it sends the
    write; a response is reconciled in a second published state that holds
    the server's task and no longer the temporary one, and a failure is
    rolled back in a second published state, to the projection before the
    call when the temporary id was fresh. [moveTask], for a task of the map
    whose board is loaded, publishes the moved state and sets a timer
    without sending anything; the timer's callback sends the write, leaves
    the store alone when the write succeeds, and puts the projection of the
    call back when it fails. [updateTask] and [deleteTask] send the write
    first, leaving the store untouched, and change the projection only when
    the write has succeeded; when it fails the projection stays as it is
    and the message is recorded, so there is nothing to roll back. *)
Theorem optimistic_only_for_create_and_move st tok data now response
    t s d i task b taskId updates known (e : Err) later :
  let tempId := temp_id now in
  let newId := js_key (Task.id (server_task response)) in
  let mid := state_after (createTask_optimistic data now st) in
  let created := createTask (Some tok) data now (Resolved response) st in
  let refused := createTask (Some tok) data now (Rejected e) st in
  let moved := moveTask t s d i st in
  let saved := moveTask_deferred st (Some tok) t d i (Resolved tt) later in
  let unsaved := moveTask_deferred st (Some tok) t d i (Rejected e) later in
  (* createTask: the optimistic change, then the write *)
  (trace_of ((createTask_optimistic data now;;
              createTask_request (Some tok) data) st)
   = [Published mid; ApiCreateTask tok (create_body data)]
   ∧ tasks mid = <[tempId := optimistic_task data tempId now]> (tasks st)
   ∧ boards mid
     = map (on_board (Task.boardId data)
              (appendColumn (Task.columnId data) tempId)) (boards st)
   (* reconciled with the response *)
   ∧ trace_of created
     = [Published mid; ApiCreateTask tok (create_body data);
        Published (state_after created); FetchNotifications]
   ∧ tasks (state_after created) !! newId = Some (server_task response)
   ∧ (newId ≠ tempId → tasks (state_after created) !! tempId = None)
   (* or rolled back *)
   ∧ published (trace_of refused) = [mid; state_after refused]
   ∧ tasks (state_after refused) !! tempId = None
   ∧ (tasks st !! tempId = None → nowhere tempId (boards st) →
      projection (state_after refused) = projection st))
  (* moveTask: the optimistic change and a timer, then the write *)
  ∧ (tasks st !! t = Some task →
     find_board (Task.boardId task) (boards st) = Some b →
     moved = (Returned (Some st), state_after moved,
              [Published (state_after moved); SetTimeout 0])
     ∧ tasks (state_after moved) = <[t := moved_task task d]> (tasks st)
     ∧ Task.columnId (moved_task task d) = Some d
     ∧ Task.status (moved_task task d) = Some d
     ∧ boards (state_after moved)
       = map (on_board (Task.boardId task) (moveColumn t s d i)) (boards st)
     ∧ saved = (Returned tt, later, [ApiUpdateTask tok t (move_body d i)])
     ∧ trace_of unsaved
       = [ApiUpdateTask tok t (move_body d i); Published (state_after unsaved);
          ToastError "Failed to save task move"]
     ∧ projection (state_after unsaved) = projection st
     ∧ error (state_after unsaved) = Some (message e))
  (* updateTask and deleteTask: the write first *)
  ∧ updateTask_request (Some tok) taskId updates st
    = (Returned true, st, [ApiUpdateTask tok taskId (update_body updates)])
  ∧ deleteTask_request (Some tok) taskId st
    = (Returned (Some (tasks st !! taskId)), st, [ApiDeleteTask tok taskId])
  (* the projection changes once the write has succeeded *)
  ∧ projection (state_after (updateTask_settle taskId updates (Resolved tt) later))
    = (<[taskId := Payload.merge (default Task.empty (tasks later !! taskId))
                     updates]> (tasks later),
       boards later)
  ∧ projection (state_after
                  (deleteTask_settle taskId (Some known) (Resolved tt) later))
    = (delete taskId (tasks later),
       map (on_board (Task.boardId known) (pruneColumn taskId)) (boards later))
  (* and on failure there is nothing to roll back *)
  ∧ projection (state_after (updateTask_settle taskId updates (Rejected e) later))
    = projection later
  ∧ error (state_after (updateTask_settle taskId updates (Rejected e) later))
    = Some (message e)
  ∧ projection (state_after
                  (deleteTask_settle taskId (Some known) (Rejected e) later))
    = projection later
  ∧ error (state_after
             (deleteTask_settle taskId (Some known) (Rejected e) later))
    = Some (message e).
Proof.
  cbv zeta. split; [|split].
  - repeat match goal with |- _ ∧ _ => split end; try reflexivity.
    + unfold state_after. simpl. apply lookup_insert_eq.
    + intros Hne. unfold state_after. simpl.
      rewrite lookup_insert_ne by done. apply lookup_delete_eq.
    + unfold state_after. simpl. apply lookup_delete_eq.
    + intros Hfresh Hno.
      assert (write_failed (Some tok) (Rejected (A:=Task.t) e)) as Hfail
        by (right; eauto).
      destruct (createTask_failed (Some tok) data now _ st Hfail)
        as (msg & -> & _).
      unfold projection. simpl.
      by rewrite delete_insert_eq, delete_id, prune_append_boards.
  - intros Ht Hb.
    pose proof (moveTask_known t s d i st task b Ht Hb) as Hrun.
    cbv zeta in Hrun. rewrite Hrun. unfold state_after. simpl.
    repeat match goal with |- _ ∧ _ => split end;
      first [reflexivity|apply moved_task_columnId|apply moved_task_status].
  - repeat match goal with |- _ ∧ _ => split end; reflexivity.
Qed.

(** A create, a move and their failures on [sample_state]. *)
Lemma optimistic_witness :
  trace_of (moveTask "t1" "todo" "done" 0 sample_state)
  = [Published (state_after (moveTask "t1" "todo" "done" 0 sample_state));
     SetTimeout 0]
  ∧ projection
      (state_after
         (createTask (Some "tok") new_task 123
            (Rejected (WriteFailed network "timeout")) sample_state))
    = projection sample_state.
Proof.
  pose proof (optimistic_only_for_create_and_move sample_state "tok" new_task
                123 server_reply "t1" "todo" "done" 0 (sample_task "t1" "todo")
                (sample_board ["t1"; "t2"] [] []) "t1" rename_patch
                (sample_task "t1" "todo") (WriteFailed network "timeout")
                sample_state) as H.
  cbv zeta in H. destruct H as (Hcreate & Hmove & _). split.
  - destruct Hmove as (Hrun & _); [vm_compute; reflexivity..|].
    by rewrite Hrun at 1.
  - destruct Hcreate as (_ & _ & _ & _ & _ & _ & _ & _ & Hback).
    apply Hback; [vm_compute; reflexivity|by_evaluation].
Defined.

(** C9 as stated fails: [updateTask] and [deleteTask] send their write
    having published nothing, and then wait for it; the store they leave
    while the write is in flight is the one they found. *)
Lemma updateTask_and_deleteTask_wait_for_the_write :
  let upd := updateTask_request (Some "tok") "t1" rename_patch sample_state in
  let del := deleteTask_request (Some "tok") "t1" sample_state in
  existsb is_write (trace_of upd) = true
  ∧ published (trace_of upd) = []
  ∧ state_after upd = sample_state
  ∧ existsb is_write (trace_of del) = true
  ∧ published (trace_of del) = []
  ∧ state_after del = sample_state.
Proof. cbv zeta. repeat split. Qed.

(** An edit that clears the due date: once the write has succeeded the
    stored task has none, and its other properties are as the edit and the
    stored task give them. *)
Example updateTask_clears_a_date :
  let run := updateTask (Some "tok") "t1" clear_date_patch (Resolved tt)
               dated_state in
  Task.dueDate <$> tasks dated_state !! "t1" = Some (Some 5000)
  ∧ tasks (state_after run) !! "t1"
    = Some (Task.mk None (Some "t1") (Some "Renamed") (Some "") (Some "todo")
              None (Some 0) (Some 0) (Some "todo") (Some "B1") (Some 0))
  ∧ boards (state_after run) = boards dated_state.
Proof. cbv zeta. repeat split; vm_compute; reflexivity. Qed.

(** * Properties of the server *)

(** ** The notification store *)

Lemma deadline_count_snoc u tid s n next :
  deadline_count u tid (with_notifications s (notification_docs s ++ [n]) next)
  = (deadline_count u tid s + (if deadline_for u tid n then 1 else 0))%nat.
Proof.
  unfold deadline_count. simpl. rewrite List.filter_app, length_app. simpl.
  by destruct (deadline_for u tid n).
Qed.

(** C5 (amended). The notification store enforces no uniqueness on
    (userId, taskId, type): the schema's only index is not unique, so a
    valid draft is always inserted, whatever is stored already, and a
    [task_deadline] draft raises the count of its key by one. *)
Theorem Notification_create_accepts_any_key faulty now d uid s :
  faulty (OpCreate d) = false →
  Notification.d_userId d = Some uid →
  Notification.d_message d ≠ "" →
  ∃ n,
    Notification_create faulty now d s
    = (Done n, with_notifications s (notification_docs s ++ [n]) (next_id s + 1))
    ∧ Notification.userId n = uid
    ∧ Notification.taskId n = Notification.d_taskId d
    ∧ Notification.type_ n = Notification.d_type d
    ∧ ∀ tid,
        Notification.d_type d = Notification.task_deadline →
        Notification.d_taskId d = Some tid →
        deadline_count uid tid
          (with_notifications s (notification_docs s ++ [n]) (next_id s + 1))
        = S (deadline_count uid tid s).
Proof.
  intros Hf Hu Hm. unfold Notification_create. rewrite Hf, Hu.
  rewrite (bool_decide_eq_false_2 _ Hm). simpl.
  eexists. split; [reflexivity|]. repeat split.
  intros tid Hty Htid. rewrite deadline_count_snoc.
  unfold deadline_for. simpl. rewrite Hty, Htid.
  rewrite !bool_decide_eq_true_2 by done. simpl. lia.
Qed.

(** A first deadline notification for [t1]. *)
Lemma Notification_create_witness :
  deadline_count "u1" "t1"
    (Notification_create no_faults 1000 (deadline_draft "u1" "t1") sample_server).2
  = 1%nat.
Proof.
  destruct (Notification_create_accepts_any_key no_faults 1000
              (deadline_draft "u1" "t1") "u1" sample_server)
    as (n & Hrun & _ & _ & _ & Hcount).
  - reflexivity.
  - reflexivity.
  - discriminate.
  - rewrite Hrun. exact (Hcount "t1" eq_refl eq_refl).
Defined.

(** C5 as stated fails: a second [task_deadline] notification for the
    same user and task is accepted and stored. *)
Lemma second_deadline_notification_is_stored :
  let first := Notification_create no_faults 1000 (deadline_draft "u1" "t1")
                 sample_server in
  let second := Notification_create no_faults 2000 (deadline_draft "u1" "t1")
                  first.2 in
  deadline_count "u1" "t1" first.2 = 1%nat
  ∧ (∃ n, second.1 = Done n)
  ∧ deadline_count "u1" "t1" second.2 = 2%nat.
Proof.
  cbv zeta. split; [vm_compute; reflexivity|].
  split; [eexists; vm_compute; reflexivity|vm_compute; reflexivity].
Qed.

(** ** The deadline checker: two ticks *)

Lemma deadline_message_nonempty t b : deadline_message t b ≠ "".
Proof. discriminate. Qed.

Lemma find_none_filter {A} (f : A → bool) l :
  List.find f l = None ↔ length (List.filter f l) = 0%nat.
Proof.
  induction l as [|x l IH]; simpl; [done|].
  destruct (f x); simpl; [split; [discriminate|lia]|done].
Qed.

(** Without faults, handling one task succeeds; it adds a notification for
    the task's key exactly when none was stored and the board is there. *)
Lemma process_task_fault_free io now t ob s :
  ∃ s',
    process_task no_faults io now (t, ob) s = (Done tt, s')
    ∧ task_docs s' = task_docs s
    ∧ board_docs s' = board_docs s
    ∧ ∀ u tid,
        deadline_count u tid s'
        = (deadline_count u tid s
           + (if bool_decide (deadline_count (TaskDoc.userId t) (TaskDoc._id t) s = 0%nat)
                 && bool_decide (is_Some ob) && key_of u tid t
              then 1 else 0))%nat.
Proof.
  unfold process_task, mbind, server_bind, Notification_findOne, no_faults.
  simpl.
  destruct (List.find (deadline_for (TaskDoc.userId t) (TaskDoc._id t))
              (notification_docs s)) as [n|] eqn:Hfind.
  - exists s. repeat split; try done. intros u tid.
    rewrite bool_decide_eq_false_2; [simpl; lia|].
    intros H0. apply find_none_filter in H0. unfold deadline_count in H0.
    congruence.
  - apply find_none_filter in Hfind.
    destruct ob as [b|]; simpl.
    + unfold Notification_create. simpl.
      assert (∀ n next u tid,
                deadline_for u tid n = key_of u tid t →
                deadline_count u tid
                  (with_notifications s (notification_docs s ++ [n]) next)
                = (deadline_count u tid s
                   + (if bool_decide (deadline_count (TaskDoc.userId t)
                                        (TaskDoc._id t) s = 0%nat)
                         && true && key_of u tid t
                      then 1 else 0))%nat) as Hcount.
      { intros n next u tid Hn. rewrite deadline_count_snoc, Hn.
        by rewrite (bool_decide_eq_true_2 _ Hfind). }
      assert (∀ u tid,
                deadline_for u tid
                  (Notification.mk ("n" +:+ pretty (next_id s))
                     (TaskDoc.userId t) (deadline_message t b)
                     Notification.task_deadline (Some (BoardDoc._id b))
                     (Some (TaskDoc._id t)) false now)
                = key_of u tid t) as Hkey.
      { intros u tid. unfold deadline_for, key_of. simpl.
        rewrite andb_true_r. f_equal. apply bool_decide_ext.
        split; congruence. }
      destruct io; (eexists; split; [reflexivity|]);
        (split; [done|]; split; [done|]); intros u tid;
        by rewrite <- (Hcount _ (next_id s + 1) u tid (Hkey u tid)).
    + exists s. repeat split; try done. intros u tid.
      rewrite andb_false_r. simpl. lia.
Qed.

Lemma for_of_fault_free io now l : ∀ s,
  ∃ s',
    for_of (process_task no_faults io now) l s = (Done tt, s')
    ∧ task_docs s' = task_docs s
    ∧ board_docs s' = board_docs s
    ∧ ∀ u tid,
        deadline_count u tid s'
        = if bool_decide (deadline_count u tid s = 0%nat)
          then (if eligible u tid l then 1%nat else 0%nat)
          else deadline_count u tid s.
Proof.
  induction l as [|[t ob] l IH]; intros s.
  - exists s. repeat split; try done. intros u tid. simpl.
    case_bool_decide; done.
  - destruct (process_task_fault_free io now t ob s) as (s1 & Hrun & Ht & Hb & Hc).
    destruct (IH s1) as (s2 & Hrun2 & Ht2 & Hb2 & Hc2).
    exists s2. split; [|split; [congruence|split; [congruence|]]].
    + simpl. unfold mbind, server_bind. by rewrite Hrun.
    + intros u tid. rewrite Hc2, Hc. simpl.
      destruct (key_of u tid t) eqn:Hkey.
      * unfold key_of in Hkey. apply andb_true_iff in Hkey as [Hu Hi].
        apply bool_decide_eq_true in Hu, Hi. subst u tid.
        rewrite !andb_true_r.
        destruct (bool_decide (deadline_count (TaskDoc.userId t) (TaskDoc._id t) s
                               = 0%nat)) eqn:H0.
        -- apply bool_decide_eq_true in H0. rewrite H0.
           by destruct (bool_decide (is_Some ob)).
        -- simpl. rewrite Nat.add_0_r. by rewrite H0.
      * rewrite andb_false_r. simpl. by rewrite Nat.add_0_r.
Qed.

Lemma checkDeadlines_fault_free next_day io now s :
  ∃ s',
    checkDeadlines no_faults next_day io now s = (Done tt, s')
    ∧ task_docs s' = task_docs s
    ∧ board_docs s' = board_docs s
    ∧ ∀ u tid,
        deadline_count u tid s'
        = if bool_decide (deadline_count u tid s = 0%nat)
          then (if eligible u tid
                     (map (λ t, (t, populate (board_docs s) t))
                        (List.filter (due_soon next_day now) (task_docs s)))
                then 1%nat else 0%nat)
          else deadline_count u tid s.
Proof.
  destruct (for_of_fault_free io now
              (map (λ t, (t, populate (board_docs s) t))
                 (List.filter (due_soon next_day now) (task_docs s))) s)
    as (s' & Hrun & H).
  exists s'. split; [|done].
  unfold checkDeadlines, catching, mbind, server_bind, Task_find, no_faults.
  simpl. fold no_faults. by rewrite Hrun.
Qed.

Lemma eligible_intro next_day now s t b :
  t ∈ task_docs s → due_soon next_day now t = true →
  populate (board_docs s) t = Some b →
  eligible (TaskDoc.userId t) (TaskDoc._id t)
    (map (λ t, (t, populate (board_docs s) t))
       (List.filter (due_soon next_day now) (task_docs s))) = true.
Proof.
  intros Hin Hdue Hpop. unfold eligible. apply existsb_exists.
  exists (t, populate (board_docs s) t). split.
  - apply in_map_iff. exists t. split; [done|].
    apply filter_In. split; [by apply list_elem_of_In|done].
  - simpl. unfold key_of. rewrite !bool_decide_eq_true_2; by rewrite ?Hpop.
Qed.

(** C6 (amended). When no store or transport operation fails, two
    successive ticks both complete, leave the task set unchanged, and leave
    exactly one [task_deadline] notification for every task that was in the
    query window at the first tick, is not done, has its board, and had no
    such notification before; a key that has a notification is never given
    another one. *)
Theorem two_ticks_one_deadline_notification next_day io now1 now2 s t b :
  t ∈ task_docs s →
  due_soon next_day now1 t = true →
  populate (board_docs s) t = Some b →
  deadline_count (TaskDoc.userId t) (TaskDoc._id t) s = 0%nat →
  let tick1 := checkDeadlines no_faults next_day io now1 s in
  let tick2 := checkDeadlines no_faults next_day io now2 tick1.2 in
  tick1.1 = Done tt ∧ tick2.1 = Done tt
  ∧ task_docs tick1.2 = task_docs s
  ∧ deadline_count (TaskDoc.userId t) (TaskDoc._id t) tick1.2 = 1%nat
  ∧ deadline_count (TaskDoc.userId t) (TaskDoc._id t) tick2.2 = 1%nat
  ∧ ∀ u tid, deadline_count u tid tick1.2 ≠ 0%nat →
             deadline_count u tid tick2.2 = deadline_count u tid tick1.2.
Proof.
  intros Hin Hdue Hpop Hnone tick1 tick2.
  destruct (checkDeadlines_fault_free next_day io now1 s)
    as (s1 & Hrun1 & Ht1 & Hb1 & Hc1).
  destruct (checkDeadlines_fault_free next_day io now2 s1)
    as (s2 & Hrun2 & Ht2 & Hb2 & Hc2).
  subst tick1 tick2. rewrite Hrun1. simpl. rewrite Hrun2. simpl.
  assert (deadline_count (TaskDoc.userId t) (TaskDoc._id t) s1 = 1%nat) as H1.
  { rewrite Hc1, bool_decide_eq_true_2 by done.
    by rewrite (eligible_intro next_day now1 s t b). }
  repeat split; try done.
  - rewrite Hc2, H1. by rewrite bool_decide_eq_false_2.
  - intros u tid Hsome. rewrite Hc2. by rewrite bool_decide_eq_false_2.
Qed.

(** Two ticks, an hour apart, over [sample_server]. *)
Lemma two_ticks_witness :
  deadline_count "u1" "t1"
    (checkDeadlines no_faults utc_next_day true (2 * hour)
       (checkDeadlines no_faults utc_next_day true hour sample_server).2).2
  = 1%nat.
Proof.
  refine (proj1 (proj2 (proj2 (proj2 (proj2
            (two_ticks_one_deadline_notification utc_next_day true hour
               (2 * hour) sample_server
               (sample_task_doc "t1" "u1" "B1" (5 * hour)) sample_board_doc
               _ _ _ _)))))).
  - apply list_elem_of_here.
  - reflexivity.
  - reflexivity.
  - reflexivity.
Defined.

(** C6 as stated fails: a task in the window whose board is gone gets no
    notification, however often the tick runs. *)
Lemma orphan_task_gets_no_deadline_notification :
  let t := sample_task_doc "t7" "u1" "B9" (5 * hour) in
  let tick1 := checkDeadlines no_faults utc_next_day true hour orphan_server in
  let tick2 := checkDeadlines no_faults utc_next_day true (2 * hour) tick1.2 in
  task_docs orphan_server = [t]
  ∧ due_soon utc_next_day hour t = true
  ∧ due_soon utc_next_day (2 * hour) t = true
  ∧ tick1.1 = Done tt ∧ tick2.1 = Done tt
  ∧ deadline_count "u1" "t7" tick2.2 = 0%nat.
Proof. cbv zeta. repeat split. Qed.

(** ** The deadline checker: a task that fails *)

Lemma for_of_app {A} (body : A → ServerM unit) pre post s :
  for_of body (pre ++ post) s
  = match for_of body pre s with
    | (Done _, s1) => for_of body post s1
    | (Failed e, s1) => (Failed e, s1)
    end.
Proof.
  revert s. induction pre as [|x pre IH]; intros s; simpl; [done|].
  unfold mbind, server_bind. destruct (body x s) as [[[]|e] s1]; [apply IH|done].
Qed.

(** C7 (amended). When handling one task fails, the tick ends there: the
    error is caught once, for the whole loop, and logged; the tasks after
    the failing one are not handled, whatever they are, and the store is
    left as the failing task left it. *)
Theorem tick_stops_at_first_failure faulty next_day io now s pre entry post
    err s1 s2 :
  Task_find faulty next_day now s = (Done (pre ++ entry :: post)%list, s) →
  for_of (process_task faulty io now) pre s = (Done tt, s1) →
  process_task faulty io now entry s1 = (Failed err, s2) →
  checkDeadlines faulty next_day io now s
  = (Done tt, (console_log "Deadline checker error" s2).2)
  ∧ notification_docs (checkDeadlines faulty next_day io now s).2
    = notification_docs s2.
Proof.
  intros Hfind Hpre Hfail.
  assert (checkDeadlines faulty next_day io now s
          = (Done tt, (console_log "Deadline checker error" s2).2)) as Hrun.
  { unfold checkDeadlines, catching, mbind, server_bind.
    rewrite Hfind, for_of_app, Hpre. simpl.
    unfold mbind, server_bind. by rewrite Hfail. }
  split; [exact Hrun|]. by rewrite Hrun.
Qed.

(** A tick over [sample_server] in which creating the notification of
    [t1] fails. *)
Lemma tick_stops_witness :
  notification_docs
    (checkDeadlines (create_fails_for "t1") utc_next_day true hour sample_server).2
  = [].
Proof.
  refine (proj2 (tick_stops_at_first_failure (create_fails_for "t1")
                   utc_next_day true hour sample_server []
                   (sample_task_doc "t1" "u1" "B1" (5 * hour), Some sample_board_doc)
                   [(sample_task_doc "t2" "u3" "B1" (7 * hour), Some sample_board_doc)]
                   (StoreFault "Notification.create") sample_server sample_server
                   _ _ _)).
  - reflexivity.
  - reflexivity.
  - reflexivity.
Defined.

(** C7 as stated fails: [t2] qualifies and nothing about it fails, yet
    the failure on [t1] leaves it without the notification a sound tick
    gives it. *)
Lemma failure_on_one_task_skips_the_next :
  let t2 := sample_task_doc "t2" "u3" "B1" (7 * hour) in
  let broken := checkDeadlines (create_fails_for "t1") utc_next_day true hour
                  sample_server in
  let sound := checkDeadlines no_faults utc_next_day true hour sample_server in
  t2 ∈ task_docs sample_server
  ∧ due_soon utc_next_day hour t2 = true
  ∧ create_fails_for "t1" (OpCreate (deadline_draft "u3" "t2")) = false
  ∧ deadline_count "u3" "t2" sound.2 = 1%nat
  ∧ deadline_count "u3" "t2" broken.2 = 0%nat.
Proof.
  cbv zeta. split; [apply list_elem_of_further, list_elem_of_here|].
  repeat split.
Qed.

(** ** Rooms *)

(** C8 (amended). On [join_board] the server joins the session to
    [board:<id>] unconditionally: it consults neither the boards nor the
    session's user, and touches no other room. *)
Theorem join_board_is_unconditional sock boardId s :
  in_room sock ("board:" +:+ boardId) (on_join_board sock boardId s)
  ∧ board_docs (on_join_board sock boardId s) = board_docs s
  ∧ ∀ room, room ≠ "board:" +:+ boardId →
            rooms (on_join_board sock boardId s) !! room = rooms s !! room.
Proof.
  unfold in_room, on_join_board, socket_join. simpl.
  split; [|split; [done|]].
  - rewrite lookup_insert_eq. simpl. set_solver.
  - intros room Hne. by rewrite lookup_insert_ne.
Qed.

(** C8 as stated fails: a session whose user is neither owner nor member
    of [B1] is in [board:B1] after asking. *)
Lemma stranger_joins_board_room :
  verified_member stranger "B1" sample_server = false
  ∧ in_room stranger "board:B1" (on_join_board stranger "B1" sample_server).
Proof.
  split; [reflexivity|].
  unfold in_room. vm_compute. set_solver.
Qed.

(** * Further properties of the client store *)

(** ** moveTask: what a move leaves alone, and where the task lands *)

Lemma moveColumn_without t s d i c :
  without t (Column.taskIds (moveColumn t s d i c))
  = without t (Column.taskIds c).
Proof.
  unfold moveColumn. repeat case_match; simpl;
    rewrite ?without_splice_insert, ?without_idem; reflexivity.
Qed.

Lemma others_order_on_board t s d i bid bs :
  others_order t (map (on_board bid (moveColumn t s d i)) bs)
  = others_order t bs.
Proof.
  unfold others_order. rewrite map_map. apply map_ext. intros b.
  unfold on_board. case_match; [done|]. simpl. rewrite map_map.
  apply map_ext. intros c. apply moveColumn_without.
Qed.

(** X1. A move touches the moved task only: every other task object stays
    as it is, and in every column of every board the other ids keep their
    relative order. *)
Theorem moveTask_keeps_other_tasks t s d i st :
  (∀ u, u ≠ t →
        tasks (state_after (moveTask t s d i st)) !! u = tasks st !! u)
  ∧ others_order t (boards (state_after (moveTask t s d i st)))
    = others_order t (boards st)
  ∧ publicBoards (state_after (moveTask t s d i st)) = publicBoards st
  ∧ currentBoardId (state_after (moveTask t s d i st)) = currentBoardId st.
Proof.
  destruct (moveTask_cases t s d i st)
    as [e Ht Hbs|Ht Hbs|task Ht Hb|task b Ht Hb st'];
    unfold state_after; simpl; try done.
  split; [|split; [|done]].
  - intros u Hu. by rewrite lookup_insert_ne.
  - apply others_order_on_board.
Qed.

Lemma moveTask_keeps_witness :
  tasks (state_after (moveTask "t1" "todo" "done" 0 sample_state)) !! "t2"
  = tasks sample_state !! "t2".
Proof.
  apply (proj1 (moveTask_keeps_other_tasks "t1" "todo" "done" 0 sample_state)).
  discriminate.
Defined.

Lemma splice_point_bounds (i : Z) (len : nat) :
  (splice_point i len ≤ len)%nat
  ∧ (0 ≤ i ≤ Z.of_nat len → splice_point i len = Z.to_nat i)
  ∧ (Z.of_nat len ≤ i → splice_point i len = len)
  ∧ (- Z.of_nat len ≤ i < 0 → Z.of_nat (splice_point i len) = Z.of_nat len + i)
  ∧ (i ≤ - Z.of_nat len → splice_point i len = 0%nat).
Proof.
  unfold splice_point. destruct (i <? 0) eqn:Hi;
    [apply Z.ltb_lt in Hi|apply Z.ltb_ge in Hi]; repeat split; lia.
Qed.

Lemma splice_insert_lookup {A} (i : Z) (x : A) l :
  splice_insert i x l !! splice_point i (length l) = Some x
  ∧ length (splice_insert i x l) = S (length l).
Proof.
  unfold splice_insert. cbv zeta. fold (splice_point i (length l)).
  pose proof (splice_point_bounds i (length l)) as [Hk _].
  set (k := splice_point i (length l)) in *.
  split.
  - rewrite lookup_app_r; rewrite length_take; [|lia].
    by replace (k - k `min` length l)%nat with 0%nat by lia.
  - rewrite length_app, length_take. simpl. rewrite length_drop. lia.
Qed.

(** X2. Where a moved task lands. In a column called [destStatus] of the
    task's board the new list is the old one without the task, with the
    task spliced in at [destIndex]: at that index when it lies within the
    list, at the end when it is larger, counted from the end when it is
    negative, and at the front when it is too negative. *)
Theorem moveTask_lands_at_splice_point t s d i st task bi ci b c :
  tasks st !! t = Some task →
  boards st !! bi = Some b →
  Some (Board.id b) = Task.boardId task →
  Board.columns b !! ci = Some c →
  Column.id c = d →
  let rest := without t (Column.taskIds c) in
  let n := length rest in
  taskIds_at (boards (state_after (moveTask t s d i st))) bi ci
  = Some (splice_insert i t rest)
  ∧ splice_insert i t rest !! splice_point i n = Some t
  ∧ without t (splice_insert i t rest) = rest
  ∧ (splice_point i n ≤ n)%nat
  ∧ (0 ≤ i ≤ Z.of_nat n → splice_point i n = Z.to_nat i)
  ∧ (Z.of_nat n ≤ i → splice_point i n = n)
  ∧ (- Z.of_nat n ≤ i < 0 → Z.of_nat (splice_point i n) = Z.of_nat n + i)
  ∧ (i ≤ - Z.of_nat n → splice_point i n = 0%nat).
Proof.
  intros Ht Hbi Hid Hci Hd rest n.
  split; [|split; [apply splice_insert_lookup|split;
    [subst rest; by rewrite without_splice_insert, without_idem
    |apply splice_point_bounds]]].
  destruct (moveTask_cases t s d i st)
    as [e Hn _|Hn _|task' Ht' Hb|task' b' Ht' Hb st'];
    unfold state_after; simpl.
  - congruence.
  - congruence.
  - assert (task' = task) as -> by congruence.
    unfold find_board in Hb.
    assert (In b (boards st)) as Hin
      by (by eapply list_elem_of_In, list_elem_of_lookup_2).
    pose proof (find_none _ _ Hb b Hin) as Hb'.
    by apply bool_decide_eq_false in Hb'.
  - assert (task' = task) as -> by congruence.
    unfold taskIds_at. rewrite list_lookup_fmap, Hbi. simpl.
    unfold on_board. rewrite bool_decide_eq_false_2 by (intros H; by apply H).
    simpl. rewrite list_lookup_fmap, Hci. simpl. f_equal.
    unfold moveColumn. rewrite (bool_decide_eq_true_2 (Column.id c = d)) by done.
    by destruct (bool_decide (Column.id c = s)).
Qed.

Lemma moveTask_lands_witness :
  taskIds_at
    (boards (state_after (moveTask "t2" "todo" "todo" (-5) sample_state))) 0 0
  = Some ["t2"; "t1"].
Proof.
  refine (proj1 (moveTask_lands_at_splice_point "t2" "todo" "todo" (-5)
                   sample_state (sample_task "t2" "todo") 0 0
                   (sample_board ["t1"; "t2"] [] [])
                   (Column.mk "todo" "To Do" ["t1"; "t2"] 0) _ _ _ _ _));
    vm_compute; reflexivity.
Defined.

(** ** Deleting a task: [deleteTask] and the [task_deleted] event *)

Lemma pruneColumn_occurrences_other u t c :
  u ≠ t →
  occurrences u (Column.taskIds (pruneColumn t c))
  = occurrences u (Column.taskIds c).
Proof. intros Hut. simpl. by apply occurrences_without_ne. Qed.

Lemma board_occurrences_pruned_other u t bid b :
  u ≠ t →
  board_occurrences u (on_board bid (pruneColumn t) b) = board_occurrences u b.
Proof.
  intros Hut. unfold on_board, board_occurrences. case_match; [done|].
  simpl. rewrite map_map. f_equal. apply map_ext. intros c.
  by apply occurrences_without_ne.
Qed.

Lemma board_occurrences_pruned t b :
  board_occurrences t (on_board (Some (Board.id b)) (pruneColumn t) b) = 0%nat.
Proof.
  unfold on_board. rewrite bool_decide_eq_false_2 by (intros H; by apply H).
  apply board_occurrences_zero. simpl. apply Forall_forall.
  intros c Hc. apply list_elem_of_fmap in Hc as (c0 & -> & _). simpl.
  apply occurrences_zero, occurrences_without_eq.
Qed.

(** Dropping a task from the map and pruning its id from the columns of
    some boards keeps every remaining task listed once. *)
Lemma placed_once_pruned t bid st st' :
  tasks st' = delete t (tasks st) →
  boards st' = map (on_board bid (pruneColumn t)) (boards st) →
  placed_once st → placed_once st'.
Proof.
  intros Ht Hb Hinv. unfold placed_once. rewrite Ht, Hb.
  intros u task Hu. apply lookup_delete_Some in Hu as [Hne Hu].
  specialize (Hinv u task Hu). simpl in *.
  rewrite find_board_map.
  destruct (find_board (Task.boardId task) (boards st)) as [b|]; [|done].
  simpl in *. by rewrite board_occurrences_pruned_other.
Qed.

(** X3. The [task_deleted] event. For an id the store does not know the
    handler does nothing, even if some column lists the id. For a known
    id, in one published state, the task leaves the map and every column
    of the open board drops its id. In both cases all other ids keep their
    order everywhere, and every remaining task is still listed exactly once
    if it was before. *)
Theorem task_deleted_prunes_open_board taskId st :
  let run := on_task_deleted taskId st in
  (tasks st !! taskId = None → run = (Returned tt, st, []))
  ∧ (is_Some (tasks st !! taskId) →
     published (trace_of run) = [state_after run]
     ∧ tasks (state_after run) = delete taskId (tasks st)
     ∧ Forall (λ b, Some (Board.id b) = currentBoardId st →
                    board_occurrences taskId b = 0%nat)
         (boards (state_after run)))
  ∧ others_order taskId (boards (state_after run))
    = others_order taskId (boards st)
  ∧ (placed_once st → placed_once (state_after run)).
Proof.
  cbv zeta. unfold on_task_deleted, mbind, prog_bind, get_state.
  destruct (tasks st !! taskId) as [task|] eqn:Ht; unfold state_after; simpl.
  - split; [done|]. split; [|split].
    + intros _. split; [done|]. split; [done|].
      apply Forall_forall. intros b Hb.
      apply list_elem_of_fmap in Hb as (b0 & -> & _).
      rewrite on_board_id. intros <-. apply board_occurrences_pruned.
    + unfold others_order. rewrite map_map. apply map_ext. intros b.
      unfold on_board. case_match; [done|]. simpl. rewrite map_map.
      apply map_ext. intros c. simpl. apply without_idem.
    + by apply (placed_once_pruned taskId (currentBoardId st)).
  - split; [done|]. split; [by intros [? ?]|]. done.
Qed.

Lemma task_deleted_witness :
  placed_once (state_after (on_task_deleted "t1" sample_state)).
Proof.
  refine (proj2 (proj2 (proj2
            (task_deleted_prunes_open_board "t1" sample_state))) _).
  by_evaluation.
Defined.

(** X4. [deleteTask] once the server has confirmed, for a task the store
    knew when the request was sent: the task leaves the map, the boards
    called like its [boardId] drop its id from every column, all other ids
    keep their order, and every remaining task is still listed exactly
    once if it was before. *)
Theorem deleteTask_removes_task taskId task st :
  let run := deleteTask_settle taskId (Some task) (Resolved tt) st in
  published (trace_of run) = [state_after run]
  ∧ tasks (state_after run) = delete taskId (tasks st)
  ∧ Forall (λ b, Some (Board.id b) = Task.boardId task →
                 board_occurrences taskId b = 0%nat)
      (boards (state_after run))
  ∧ others_order taskId (boards (state_after run))
    = others_order taskId (boards st)
  ∧ (placed_once st → placed_once (state_after run)).
Proof.
  cbv zeta. unfold deleteTask_settle, try_catch, mbind, prog_bind, get_state,
    state_after, trace_of. simpl.
  split; [done|]. split; [done|]. split; [|split].
  - apply Forall_forall. intros b Hb.
    apply list_elem_of_fmap in Hb as (b0 & -> & _).
    rewrite on_board_id. intros <-. apply board_occurrences_pruned.
  - unfold others_order. rewrite map_map. apply map_ext. intros b.
    unfold on_board. case_match; [done|]. simpl. rewrite map_map.
    apply map_ext. intros c. simpl. apply without_idem.
  - by apply (placed_once_pruned taskId (Task.boardId task)).
Qed.

Lemma deleteTask_witness :
  placed_once
    (state_after
       (deleteTask_settle "t1" (Some (sample_task "t1" "todo")) (Resolved tt)
          sample_state)).
Proof.
  refine (proj2 (proj2 (proj2 (proj2
            (deleteTask_removes_task "t1" (sample_task "t1" "todo")
               sample_state)))) _).
  by_evaluation.
Defined.

(** X5. [deleteTask] for an id the store does not know, with at least one
    board loaded: the delete is sent all the same, and when the server
    confirms it the store reports an error instead: reading [boardId] of
    the missing task throws inside the updater, nothing is removed, and
    the message of that [TypeError] lands in [error]. *)
Theorem deleteTask_of_unknown_task tok taskId st :
  tasks st !! taskId = None →
  boards st ≠ [] →
  let run := deleteTask (Some tok) taskId (Resolved tt) st in
  result_of run = Returned tt
  ∧ trace_of run = [ApiDeleteTask tok taskId; Published (state_after run)]
  ∧ projection (state_after run) = projection st
  ∧ error (state_after run) = Some (Js.reading_undefined "boardId").
Proof.
  intros Ht Hb. cbv zeta.
  unfold deleteTask, deleteTask_request, deleteTask_settle, try_catch, mbind,
    prog_bind, get_state, perform, mret, prog_ret, result_of, trace_of,
    state_after. simpl. rewrite Ht. simpl.
  destruct (boards st) as [|b bs] eqn:Hbs; [done|]. simpl.
  unfold projection. simpl. by rewrite Hbs.
Qed.

Lemma deleteTask_unknown_witness :
  error (state_after (deleteTask (Some "tok") "t404" (Resolved tt) sample_state))
  = Some "Cannot read properties of undefined (reading 'boardId')".
Proof.
  refine (proj2 (proj2 (proj2
            (deleteTask_of_unknown_task "tok" "t404" sample_state _ _)))).
  - vm_compute. reflexivity.
  - discriminate.
Defined.

(** ** The [task_updated] event *)

Lemma same_true p c :
  Js.same p c = true
  ↔ (∃ x, p = Js.val x ∧ c = Some x) ∨ (p = Js.null ∧ c = None).
Proof.
  unfold Js.same. destruct p as [| | |x], c as [y|]; simpl;
    try (split; [discriminate|intros [(? & ? & ?)|[? ?]]; discriminate]).
  - split; [eauto|done].
  - rewrite bool_decide_eq_true. split; [intros ->; eauto|].
    intros [(z & ? & ?)|[? ?]]; congruence.
Qed.

Lemma over_or a b (base : option string) :
  Js.over (Js.or a b) base = Js.read (Js.or a b).
Proof.
  unfold Js.or. destruct a as [| | |x]; [by destruct b..|].
  destruct (bool_decide (x = "")); [by destruct b|done].
Qed.

(** X6. The [task_updated] event. A payload whose [boardId] is not
    strictly equal to the id of the open board is ignored. Otherwise one
    state is published in which only the entry filed under the payload's
    [_id || id] changes: a property the payload has overwrites the local
    one, also when it holds [null], which clears the local value, as for a
    due date the server has removed; a property the payload lacks keeps the
    local value; the entry's [id] is what [_id || id] gave. No column list
    changes, and no task leaves the map; if the task was known under the
    same board, every task is still listed once when that held before. An
    unknown task gets an entry, with no column listing it. *)
Theorem task_updated_merges_fields payload st :
  let run := on_task_updated payload st in
  let id := Js.or (Payload._id payload) (Payload.id payload) in
  let key := Js.key id in
  let old := default Task.empty (tasks st !! key) in
  (Js.same (Payload.boardId payload) (currentBoardId st) = false →
   run = (Returned tt, st, []))
  ∧ (Js.same (Payload.boardId payload) (currentBoardId st) = true →
     published (trace_of run) = [state_after run]
     ∧ (∃ new,
          tasks (state_after run) = <[key := new]> (tasks st)
          ∧ Task.title new = Js.over (Payload.title payload) (Task.title old)
          ∧ Task.description new
            = Js.over (Payload.description payload) (Task.description old)
          ∧ Task.status new
            = Js.over (Payload.status payload) (Task.status old)
          ∧ Task.columnId new
            = Js.over (Payload.columnId payload) (Task.columnId old)
          ∧ Task.dueDate new
            = Js.over (Payload.dueDate payload) (Task.dueDate old)
          ∧ Task.position new
            = Js.over (Payload.position payload) (Task.position old)
          ∧ (Payload.dueDate payload = Js.null → Task.dueDate new = None)
          ∧ (Payload.dueDate payload = Js.missing →
             Task.dueDate new = Task.dueDate old)
          ∧ Task.id new = Js.read id
          ∧ Task.boardId new = currentBoardId st)
     ∧ boards (state_after run) = boards st
     ∧ (placed_once st →
        Task.boardId <$> tasks st !! key = Some (currentBoardId st) →
        placed_once (state_after run)))
  ∧ (∀ u, is_Some (tasks st !! u) → is_Some (tasks (state_after run) !! u)).
Proof.
  cbv zeta. unfold on_task_updated, mbind, prog_bind, get_state.
  change (Payload.boardId (event_task payload)) with (Payload.boardId payload).
  change (Payload.id (event_task payload))
    with (Js.or (Payload._id payload) (Payload.id payload)).
  set (key := Js.key (Js.or (Payload._id payload) (Payload.id payload))).
  assert (Js.same (Payload.boardId payload) (currentBoardId st) = true →
          Task.boardId
            (Payload.merge (default Task.empty (tasks st !! key))
               (event_task payload))
          = currentBoardId st) as Hboard.
  { intros Hsame. apply same_true in Hsame as [(x & Hp & Hc)|[Hp Hc]];
      cbn [Payload.merge Task.boardId event_task Payload.boardId];
      by rewrite Hp, Hc. }
  destruct (Js.same (Payload.boardId payload) (currentBoardId st)) eqn:Hsame;
    unfold state_after, trace_of; cbn [fst snd].
  - specialize (Hboard eq_refl).
    split; [done|]. split.
    + intros _. split; [done|]. split; [|split; [done|]].
      * eexists. split; [reflexivity|].
        cbn [Payload.merge event_task Task.title Task.description Task.status
             Task.columnId Task.dueDate Task.position Task.id Task.boardId
             Payload.title Payload.description Payload.status Payload.columnId
             Payload.dueDate Payload.position Payload.id Payload.boardId].
        repeat match goal with |- _ ∧ _ => split end; try reflexivity.
        -- by intros ->.
        -- by intros ->.
        -- apply over_or.
        -- exact Hboard.
      * intros Hinv Hold. unfold placed_once.
        cbn [tasks boards patch_tasks set_state fst snd].
        destruct (tasks st !! key) as [old|] eqn:Hk; [|done].
        simpl in Hold. apply map_Forall_insert_2; [|done].
        rewrite Hboard.
        specialize (Hinv _ _ Hk). simpl in Hinv.
        assert (Task.boardId old = currentBoardId st) as Hob by congruence.
        by rewrite Hob in Hinv.
    + intros u Hu. cbn [tasks patch_tasks set_state fst snd].
      destruct (decide (key = u)) as [<-|Hne].
      * rewrite lookup_insert_eq. eauto.
      * by rewrite lookup_insert_ne.
  - split; [done|]. split; [done|]. done.
Qed.

(** The event [sample_event] on a store in which [t1] has a due date: the
    date is cleared. *)
Lemma task_updated_witness :
  Task.dueDate <$> tasks dated_state !! "t1" = Some (Some 5000)
  ∧ Task.dueDate
      <$> tasks (state_after (on_task_updated sample_event dated_state)) !! "t1"
    = Some None
  ∧ placed_once (state_after (on_task_updated sample_event dated_state)).
Proof.
  pose proof (task_updated_merges_fields sample_event dated_state) as H.
  cbv zeta in H. destruct H as (_ & H & _).
  destruct (H eq_refl) as (_ & (new & Hnew & Hfields) & _ & Hplaced).
  split; [vm_compute; reflexivity|]. split.
  - rewrite Hnew.
    change (Js.key (Js.or (Payload._id sample_event) (Payload.id sample_event)))
      with "t1".
    rewrite lookup_insert_eq. cbn [fmap option_fmap option_map]. f_equal.
    by apply Hfields.
  - apply Hplaced; [by_evaluation|vm_compute; reflexivity].
Defined.

(** ** Losing a board: [you_were_removed] and [board_deleted] *)

Lemma find_filter_keep {A} (f g : A → bool) l :
  (∀ x, f x = true → g x = true) →
  List.find f (List.filter g l) = List.find f l.
Proof.
  intros Hfg. induction l as [|x l IH]; [done|]. simpl.
  destruct (g x) eqn:Hg; simpl.
  - by rewrite IH.
  - destruct (f x) eqn:Hf; [|done]. apply Hfg in Hf. congruence.
Qed.

Lemma find_none_all {A} (f : A → bool) l :
  (∀ x, f x = false) → List.find f l = None.
Proof.
  intros Hf. induction l as [|x l IH]; [done|]. simpl. by rewrite Hf.
Qed.

(** X7. Losing a board. After [you_were_removed] or [board_deleted] no
    board of that id is left in [boards], the task map and the public
    boards are untouched, and [getCurrentBoard] answers [null] when the
    lost board was the open one and is unchanged otherwise. A client that
    was viewing the board sees two states in turn: in the first the board
    is gone while it is still the open one. *)
Theorem losing_a_board boardId notice st :
  let run := drop_board boardId notice st in
  Forall (λ b, Board.id b ≠ boardId) (boards (state_after run))
  ∧ tasks (state_after run) = tasks st
  ∧ publicBoards (state_after run) = publicBoards st
  ∧ getCurrentBoard (state_after run)
    = (if bool_decide (currentBoardId st = Some boardId) then None
       else getCurrentBoard st)
  ∧ length (published (trace_of run))
    = (if bool_decide (currentBoardId st = Some boardId) then 2%nat else 1%nat)
  ∧ (currentBoardId st = Some boardId →
     ∃ mid, published (trace_of run) = [mid; state_after run]
            ∧ currentBoardId mid = Some boardId
            ∧ Forall (λ b, Board.id b ≠ boardId) (boards mid)).
Proof.
  cbv zeta.
  assert (Forall (λ b, Board.id b ≠ boardId)
            (List.filter (λ b, bool_decide (Board.id b ≠ boardId)) (boards st)))
    as Hgone.
  { apply Forall_forall. intros b Hb. apply list_elem_of_In, filter_In in Hb.
    destruct Hb as [_ Hb]. by apply bool_decide_eq_true in Hb. }
  unfold drop_board, mbind, prog_bind, get_state, state_after, trace_of.
  simpl. destruct (currentBoardId st) as [cur|] eqn:Hcur; simpl.
  - destruct (bool_decide (cur = boardId)) eqn:Hb; simpl.
    + apply bool_decide_eq_true in Hb as ->.
      rewrite bool_decide_eq_true_2 by done.
      repeat split; try done.
      * unfold getCurrentBoard. simpl.
        rewrite !find_none_all; done.
      * intros _. eexists. repeat split; done.
    + apply bool_decide_eq_false in Hb.
      rewrite bool_decide_eq_false_2 by congruence.
      repeat split; try done; [|congruence].
      unfold getCurrentBoard. simpl. rewrite Hcur.
      rewrite find_filter_keep; [done|].
      intros b Hf. apply bool_decide_eq_true in Hf.
      apply bool_decide_eq_true. congruence.
  - repeat split; try done.
    unfold getCurrentBoard. simpl. rewrite Hcur.
    rewrite find_filter_keep; [done|].
    intros b Hf. by apply bool_decide_eq_true in Hf.
Qed.

Lemma losing_a_board_witness :
  ∃ mid,
    published (trace_of (on_board_deleted "B1" sample_state))
    = [mid; state_after (on_board_deleted "B1" sample_state)]
    ∧ currentBoardId mid = Some "B1"
    ∧ Forall (λ b, Board.id b ≠ "B1") (boards mid).
Proof.
  refine (proj2 (proj2 (proj2 (proj2 (proj2
            (losing_a_board "B1" "The board you were viewing has been deleted"
               sample_state))))) _).
  reflexivity.
Defined.

(** ** fetchTasks *)

Lemma push_first_ids status k cols :
  map Column.id (push_first status k cols) = map Column.id cols.
Proof.
  induction cols as [|c cols IH]; [done|]. simpl.
  case_bool_decide; simpl; [done|by rewrite IH].
Qed.

Lemma names_a_column_ids status cols cols' :
  map Column.id cols = map Column.id cols' →
  names_a_column status cols = names_a_column status cols'.
Proof.
  unfold names_a_column. revert cols'.
  induction cols as [|c cols IH]; intros [|c' cols'] Hids; try done.
  simpl in *. injection Hids as Hc Hrest. rewrite Hc. f_equal. by apply IH.
Qed.

Lemma push_first_occurrences x status k cols :
  sum_list (map (λ c, occurrences x (Column.taskIds c)) (push_first status k cols))
  = (sum_list (map (λ c, occurrences x (Column.taskIds c)) cols)
     + (if bool_decide (k = x) && names_a_column status cols then 1 else 0))%nat.
Proof.
  unfold names_a_column. induction cols as [|c cols IH]; simpl.
  - by rewrite andb_false_r.
  - destruct (bool_decide (Some (Column.id c) = status)) eqn:Hc; simpl.
    + rewrite occurrences_app, occurrences_cons. unfold occurrences at 2. simpl.
      rewrite andb_true_r.
      destruct (decide (k = x)) as [->|Hne].
      * rewrite bool_decide_eq_true_2 by done. lia.
      * rewrite bool_decide_eq_false_2 by done. lia.
    + rewrite IH. lia.
Qed.

Lemma refill_occurrences x data : ∀ cols,
  sum_list (map (λ c, occurrences x (Column.taskIds c))
              (fold_left
                 (λ cols t, push_first (Task.status t) (fetched_key t) cols)
                 data cols))
  = (sum_list (map (λ c, occurrences x (Column.taskIds c)) cols)
     + length (filter (λ t, fetched_key t = x
                            ∧ names_a_column (Task.status t) cols = true)
                 data))%nat.
Proof.
  induction data as [|t data IH]; intros cols; simpl; [lia|].
  rewrite IH, push_first_occurrences, filter_cons.
  assert (∀ u, names_a_column (Task.status u)
                 (push_first (Task.status t) (fetched_key t) cols)
               = names_a_column (Task.status u) cols) as Hn.
  { intros u. apply names_a_column_ids, push_first_ids. }
  rewrite (list_filter_iff _
             (λ u, fetched_key u = x
                   ∧ names_a_column (Task.status u) cols = true)).
  2:{ intros u. by rewrite Hn. }
  destruct (decide (fetched_key t = x
                    ∧ names_a_column (Task.status t) cols = true))
    as [[Hk Hc]|Hno]; simpl.
  - rewrite Hc, (bool_decide_eq_true_2 _ Hk). simpl. lia.
  - destruct (bool_decide (fetched_key t = x)) eqn:Hk; simpl; [|lia].
    apply bool_decide_eq_true in Hk.
    destruct (names_a_column (Task.status t) cols) eqn:Hc; [|lia].
    by destruct Hno.
Qed.

Lemma cleared_occurrences x cols :
  sum_list (map (λ c, occurrences x (Column.taskIds c)) (map clearColumn cols))
  = 0%nat.
Proof. induction cols as [|c cols IH]; [done|]. simpl. by rewrite IH. Qed.

Lemma cleared_ids cols : map Column.id (map clearColumn cols) = map Column.id cols.
Proof. rewrite map_map. by apply map_ext. Qed.

Lemma filter_none {A} (P : A → Prop) `{∀ u, Decision (P u)} l :
  Forall (λ u, ¬ P u) l → filter P l = [].
Proof.
  induction 1 as [|u l Hu _ IH]; [done|].
  by rewrite filter_cons, decide_False.
Qed.

Lemma filter_key_nodup {A} (f : A → string) (P : A → bool) l t :
  NoDup (map f l) → t ∈ l →
  length (filter (λ u, f u = f t ∧ P u = true) l)
  = if P t then 1%nat else 0%nat.
Proof.
  induction l as [|a l IH]; intros Hnd Ht; [by apply elem_of_nil in Ht|].
  simpl in Hnd. apply NoDup_cons in Hnd as [Ha Hnd].
  rewrite filter_cons. apply elem_of_cons in Ht as [->|Ht].
  - assert (filter (λ u, f u = f a ∧ P u = true) l = []) as ->.
    { apply filter_none, Forall_forall. intros u Hu [Hfu _].
      apply Ha. rewrite <- Hfu. by apply list_elem_of_fmap_2. }
    destruct (P a); simpl.
    + by rewrite decide_True.
    + by rewrite decide_False by (intros [_ ?]; done).
  - rewrite decide_False.
    + by apply IH.
    + intros [Hfa _]. apply Ha. rewrite Hfa. by apply list_elem_of_fmap_2.
Qed.

Lemma filter_key_absent {A} (f : A → string) (P : A → Prop)
    `{∀ u, Decision (P u)} l x :
  x ∉ map f l → filter (λ u, f u = x ∧ P u) l = [].
Proof.
  intros Hx. apply filter_none, Forall_forall. intros u Hu [Hfu _].
  apply Hx. rewrite <- Hfu. by apply list_elem_of_fmap_2.
Qed.

(** The columns after a fetch, said directly. *)
Lemma refilled_nil seen cols : refilled [] seen cols = map clearColumn cols.
Proof.
  revert seen. induction cols as [|c cols IH]; intros seen; [done|].
  simpl. rewrite IH. by case_bool_decide.
Qed.

Lemma refilled_snoc_seen l t seen cols :
  (∀ s, Task.status t = Some s → s ∈ seen) →
  refilled (l ++ [t]) seen cols = refilled l seen cols.
Proof.
  revert seen. induction cols as [|c cols IH]; intros seen Hs; [done|].
  simpl. rewrite IH.
  2:{ intros s Hts. apply elem_of_cons. right. by apply Hs. }
  f_equal. case_bool_decide as Hc; [done|].
  rewrite filter_app, filter_cons, filter_nil.
  rewrite decide_False; [by rewrite app_nil_r|].
  intros Hts. apply Hc. by apply Hs.
Qed.

Lemma push_first_refilled l t seen cols :
  (∀ s, Task.status t = Some s → s ∉ seen) →
  push_first (Task.status t) (fetched_key t) (refilled l seen cols)
  = refilled (l ++ [t]) seen cols.
Proof.
  revert seen. induction cols as [|c cols IH]; intros seen Hs; [done|].
  simpl. destruct (decide (Task.status t = Some (Column.id c))) as [Hc|Hc].
  - rewrite bool_decide_eq_true_2 by done.
    rewrite (refilled_snoc_seen l t (Column.id c :: seen)).
    2:{ intros s Hts. apply elem_of_cons. left. congruence. }
    f_equal. unfold Column.with_taskIds. simpl. f_equal.
    rewrite bool_decide_eq_false_2 by (by apply Hs).
    rewrite filter_app, filter_cons, filter_nil, decide_True by done.
    by rewrite map_app.
  - rewrite bool_decide_eq_false_2 by done.
    rewrite IH.
    2:{ intros s Hts. apply not_elem_of_cons. split; [congruence|by apply Hs]. }
    f_equal. case_bool_decide; [done|].
    rewrite filter_app, filter_cons, filter_nil, decide_False by done.
    by rewrite app_nil_r.
Qed.

Lemma refill_refilled data cols : refill data cols = refilled data [] cols.
Proof.
  unfold refill. induction data as [|t data IH] using rev_ind.
  - simpl. by rewrite refilled_nil.
  - rewrite fold_left_app. cbn [fold_left].
    rewrite IH. apply push_first_refilled. intros s _. apply not_elem_of_nil.
Qed.

Lemma updateBoardTasks_refilled boardId data b :
  updateBoardTasks boardId data b
  = if bool_decide (Board.id b = boardId)
    then Board.with_columns b (refilled data [] (Board.columns b))
    else b.
Proof.
  unfold updateBoardTasks. rewrite refill_refilled.
  destruct (decide (Board.id b = boardId)) as [Hb|Hb].
  - by rewrite bool_decide_eq_false_2, bool_decide_eq_true_2 by auto.
  - by rewrite bool_decide_eq_true_2, bool_decide_eq_false_2 by auto.
Qed.

(** X8. What a fetch makes of the columns. In every board called
    [boardId], of [boards] and of [publicBoards], the previous lists are
    discarded: each column lists, in the order of the response, the
    fetched tasks whose status is its id, and a column whose id an earlier
    column of the board already has lists nothing. Other boards are left
    as they are, and the whole update is one published state. *)
Theorem fetchTasks_refills_columns st boardId data :
  let run := fetchTasks_settle boardId (Resolved data) st in
  let rebuilt b :=
    if bool_decide (Board.id b = boardId)
    then Board.with_columns b (refilled data [] (Board.columns b))
    else b in
  boards (state_after run) = map rebuilt (boards st)
  ∧ publicBoards (state_after run) = map rebuilt (publicBoards st)
  ∧ loading (state_after run) = false
  ∧ currentBoardId (state_after run) = currentBoardId st
  ∧ published (trace_of run) = [state_after run].
Proof.
  cbv zeta. unfold fetchTasks_settle, mbind, prog_bind, get_state,
    state_after, trace_of. simpl.
  repeat split; apply map_ext; intros b; apply updateBoardTasks_refilled.
Qed.

Lemma fill_tasksMap_absent data x : ∀ m : gmap string Task.t,
  x ∉ map fetched_key data →
  fold_left (λ m t, <[fetched_key t := fetched_task t]> m) data m !! x = m !! x.
Proof.
  induction data as [|t data IH]; intros m Hx; [done|].
  simpl in *. apply not_elem_of_cons in Hx as [Hne Hx].
  rewrite IH by done. by rewrite lookup_insert_ne.
Qed.

Lemma fill_tasksMap_present data t : ∀ m : gmap string Task.t,
  NoDup (map fetched_key data) → t ∈ data →
  fold_left (λ m t, <[fetched_key t := fetched_task t]> m) data m
    !! fetched_key t
  = Some (fetched_task t).
Proof.
  induction data as [|a data IH]; intros m Hnd Ht; [by apply elem_of_nil in Ht|].
  simpl in *. apply NoDup_cons in Hnd as [Ha Hnd].
  apply elem_of_cons in Ht as [->|Ht].
  - rewrite fill_tasksMap_absent by done. apply lookup_insert_eq.
  - by apply IH.
Qed.

Lemma board_is_known boardId (i : nat) b (bs ps : list Board.t) :
  bs !! i = Some b → Board.id b = boardId →
  existsb (λ b, bool_decide (Board.id b = boardId)) (bs ++ ps) = true.
Proof.
  intros Hi Hb. apply existsb_exists. exists b. split.
  - apply in_or_app. left. by eapply list_elem_of_In, list_elem_of_lookup_2.
  - by apply bool_decide_eq_true.
Qed.

(** X9. A fetch lists no task twice. When the response carries each id
    once, a fetched task is filed in the map under its id and the rebuilt
    board lists it once if its status is the id of one of the board's
    columns, and not at all otherwise; an id the response lacks is listed
    nowhere on that board, while its entry in the map, if any, stays. *)
Theorem fetchTasks_lists_each_task_at_most_once st boardId data i b :
  NoDup (map fetched_key data) →
  boards st !! i = Some b →
  Board.id b = boardId →
  let st' := state_after (fetchTasks_settle boardId (Resolved data) st) in
  ∃ b',
    boards st' !! i = Some b'
    ∧ Board.id b' = boardId
    ∧ (∀ t, t ∈ data →
         tasks st' !! fetched_key t = Some (fetched_task t)
         ∧ board_occurrences (fetched_key t) b'
           = if names_a_column (Task.status t) (Board.columns b)
             then 1%nat else 0%nat)
    ∧ (∀ x, x ∉ map fetched_key data →
         tasks st' !! x = tasks st !! x
         ∧ board_occurrences x b' = 0%nat).
Proof.
  intros Hnd Hi Hb. cbv zeta.
  unfold fetchTasks_settle, mbind, prog_bind, get_state, state_after. simpl.
  exists (updateBoardTasks boardId data b).
  assert (∀ x, board_occurrences x (updateBoardTasks boardId data b)
               = length (filter (λ t, fetched_key t = x
                                      ∧ names_a_column (Task.status t)
                                          (Board.columns b) = true) data))
    as Hocc.
  { intros x. unfold updateBoardTasks, board_occurrences.
    rewrite bool_decide_eq_false_2 by (intros H; by apply H). simpl.
    unfold refill.
    pose proof (refill_occurrences x data (map clearColumn (Board.columns b)))
      as Hr. unfold fetched_key in *. rewrite Hr, cleared_occurrences. simpl.
    f_equal. apply list_filter_iff. intros t.
    by rewrite (names_a_column_ids _ _ _ (cleared_ids (Board.columns b))). }
  unfold tasksMap_of. rewrite (board_is_known boardId i b _ _ Hi Hb).
  split; [by rewrite list_lookup_fmap, Hi|].
  split; [unfold updateBoardTasks; by case_bool_decide|].
  split.
  - intros t Ht. split.
    + apply lookup_union_Some_l. by apply fill_tasksMap_present.
    + rewrite Hocc.
      apply (filter_key_nodup fetched_key
               (λ u, names_a_column (Task.status u) (Board.columns b)));
        done.
  - intros x Hx. split.
    + rewrite lookup_union_r; [done|].
      unfold fill_tasksMap. by rewrite fill_tasksMap_absent.
    + rewrite Hocc. by rewrite filter_key_absent.
Qed.

Lemma fetchTasks_once_witness :
  board_occurrences "t4"
    <$> find_board (Some "B1")
          (boards (state_after
                     (fetchTasks_settle "B1" (Resolved sample_page)
                        sample_state)))
  = Some 0%nat.
Proof.
  destruct (fetchTasks_lists_each_task_at_most_once sample_state "B1"
              sample_page 0 (sample_board ["t1"; "t2"] [] []))
    as (b' & Hb' & _ & Hin & _).
  - by_evaluation.
  - reflexivity.
  - reflexivity.
  - cbv zeta in Hb'. simpl in Hb'. injection Hb' as <-. vm_compute. reflexivity.
Defined.

Lemma updateBoardTasks_other boardId data bs :
  Forall (λ b, Board.id b ≠ boardId) bs →
  map (updateBoardTasks boardId data) bs = bs.
Proof.
  intros Hall. rewrite <- (map_id bs) at 2. apply map_ext_in. intros b Hb.
  eapply Forall_forall in Hall; [|by apply list_elem_of_In].
  unfold updateBoardTasks. by rewrite bool_decide_eq_true_2.
Qed.

(** X10. Fetches that change nothing. When neither [boards] nor
    [publicBoards] holds a board called [boardId], a successful fetch adds
    no task to the map, whatever the response carries, and leaves every
    board as it is. A rejected fetch leaves the projection alone, records
    the message and ends the loading state. Without a token no request is
    sent and the store is left loading. *)
Theorem fetchTasks_without_effect st boardId data e reply :
  (Forall (λ b, Board.id b ≠ boardId) (boards st ++ publicBoards st) →
   projection (state_after (fetchTasks_settle boardId (Resolved data) st))
   = projection st
   ∧ publicBoards (state_after (fetchTasks_settle boardId (Resolved data) st))
     = publicBoards st)
  ∧ (projection (state_after (fetchTasks_settle boardId (Rejected e) st))
     = projection st
     ∧ error (state_after (fetchTasks_settle boardId (Rejected e) st))
       = Some (message e)
     ∧ loading (state_after (fetchTasks_settle boardId (Rejected e) st))
       = false)
  ∧ (projection (state_after (fetchTasks None boardId reply st)) = projection st
     ∧ loading (state_after (fetchTasks None boardId reply st)) = true
     ∧ existsb is_refetch (trace_of (fetchTasks None boardId reply st)) = false).
Proof.
  split; [|by repeat split].
  intros Hall. unfold fetchTasks_settle, mbind, prog_bind, get_state,
    state_after, projection. simpl.
  apply Forall_app in Hall as [Hb Hp].
  rewrite !updateBoardTasks_other by done. split; [|done]. f_equal.
  unfold tasksMap_of.
  assert (existsb (λ b, bool_decide (Board.id b = boardId))
            (boards st ++ publicBoards st) = false) as ->.
  { apply not_true_is_false. intros Hex.
    apply existsb_exists in Hex as (b & Hin & Hid).
    apply bool_decide_eq_true in Hid.
    apply in_app_or in Hin as [Hin|Hin];
      [eapply Forall_forall in Hb|eapply Forall_forall in Hp];
      try (by apply list_elem_of_In); done. }
  apply (left_id_L ∅ (∪)).
Qed.

Lemma fetchTasks_unknown_board_witness :
  projection (state_after
                (fetchTasks_settle "B7" (Resolved sample_page) sample_state))
  = projection sample_state.
Proof.
  refine (proj1 (proj1 (fetchTasks_without_effect sample_state "B7" sample_page
                          (JsError "") (Resolved [])) _)).
  by_evaluation.
Defined.

(** * Further properties of the server *)

(** ** A tick, whatever fails *)

Lemma tick_extends_refl io now entries s s' :
  task_docs s' = task_docs s → board_docs s' = board_docs s →
  rooms s' = rooms s → notification_docs s' = notification_docs s →
  emitted s' = emitted s →
  tick_extends io now entries s s'.
Proof.
  intros Ht Hb Hr Hn He. repeat split; try done.
  exists [], []. rewrite !app_nil_r. repeat split; try done.
  intros u tid. left. unfold deadline_count. by rewrite Hn.
Qed.

Lemma deadline_count_same u tid s s' :
  notification_docs s' = notification_docs s →
  deadline_count u tid s' = deadline_count u tid s.
Proof. unfold deadline_count. by intros ->. Qed.

Lemma tick_extends_mono io now entries entries' s s' :
  entries ⊆ entries' →
  tick_extends io now entries s s' → tick_extends io now entries' s s'.
Proof.
  intros Hsub (Ht & Hb & Hr & added & sent & Hn & He & Hadd & Hsent & Hc).
  repeat split; try done. exists added, sent. repeat split; try done.
  eapply Forall_impl; [exact Hadd|]. simpl.
  intros n (? & ? & ? & t & b & Hin & ?). repeat split; try done.
  exists t, b. split; [by apply Hsub|done].
Qed.

Lemma tick_extends_trans io now entries s1 s2 s3 :
  tick_extends io now entries s1 s2 → tick_extends io now entries s2 s3 →
  tick_extends io now entries s1 s3.
Proof.
  intros (Ht & Hb & Hr & added & sent & Hn & He & Hadd & Hsent & Hc)
         (Ht' & Hb' & Hr' & added' & sent' & Hn' & He' & Hadd' & Hsent' & Hc').
  split; [congruence|]. split; [congruence|]. split; [congruence|].
  exists (added ++ added')%list, (sent ++ sent')%list.
  split; [by rewrite Hn', Hn, app_assoc|].
  split; [by rewrite He', He, app_assoc|].
  split; [|split].
  - apply Forall_app. split; [done|].
    eapply Forall_impl; [exact Hadd'|]. simpl.
    intros n (? & ? & ? & t & b & Hin & ? & ? & ? & H0).
    repeat split; try done. exists t, b. repeat split; try done.
    destruct (Hc (TaskDoc.userId t) (TaskDoc._id t)) as [Heq|[Hz _]]; lia.
  - apply Forall_app. split.
    + eapply Forall_impl; [exact Hsent|]. simpl.
      intros e (? & ? & Hin & ?). repeat split; try done.
      apply elem_of_app. by left.
    + eapply Forall_impl; [exact Hsent'|]. simpl.
      intros e (? & ? & Hin & ?). repeat split; try done.
      apply elem_of_app. by right.
  - intros u tid.
    destruct (Hc u tid) as [Heq|[Hz Ho]], (Hc' u tid) as [Heq'|[Hz' Ho']];
      [left|right|right|]; lia.
Qed.

(** Handling one entry, whatever the oracle says. *)
Lemma process_task_extends faulty io now t ob s :
  tick_extends io now [(t, ob)] s (process_task faulty io now (t, ob) s).2.
Proof.
  unfold process_task, mbind, server_bind, Notification_findOne. simpl.
  destruct (faulty (OpFindOne _ _)); simpl; [by apply tick_extends_refl|].
  destruct (List.find (deadline_for (TaskDoc.userId t) (TaskDoc._id t))
              (notification_docs s)) as [n|] eqn:Hfind; simpl;
    [by apply tick_extends_refl|].
  destruct ob as [b|]; simpl; [|by apply tick_extends_refl].
  unfold Notification_create.
  destruct (faulty (OpCreate _)); simpl; [by apply tick_extends_refl|].
  apply find_none_filter in Hfind.
  set (n := Notification.mk _ _ _ _ _ _ _ _).
  assert (∀ u tid, deadline_for u tid n = key_of u tid t) as Hkey.
  { intros u tid. unfold deadline_for, key_of. simpl.
    rewrite andb_true_r. f_equal. apply bool_decide_ext. split; congruence. }
  assert (∀ s', notification_docs s' = (notification_docs s ++ [n])%list →
            ∀ u tid, deadline_count u tid s' = deadline_count u tid s
                     ∨ (deadline_count u tid s = 0%nat
                        ∧ deadline_count u tid s' = 1%nat)) as Hcount.
  { intros s' Hs' u tid. unfold deadline_count. rewrite Hs'.
    rewrite List.filter_app, length_app. simpl. rewrite Hkey.
    destruct (key_of u tid t) eqn:Hk; simpl; [|left; lia].
    unfold key_of in Hk. apply andb_true_iff in Hk as [Hu Hi].
    apply bool_decide_eq_true in Hu, Hi. subst u tid. right. lia. }
  assert (Notification.type_ n = Notification.task_deadline
          ∧ Notification.read n = false
          ∧ Notification.createdAt n = now
          ∧ ∃ t0 b0, (t0, Some b0) ∈ [(t, Some b)]
                     ∧ Notification.userId n = TaskDoc.userId t0
                     ∧ Notification.taskId n = Some (TaskDoc._id t0)
                     ∧ Notification.boardId n = Some (BoardDoc._id b0)
                     ∧ deadline_count (TaskDoc.userId t0) (TaskDoc._id t0) s
                       = 0%nat) as Hn.
  { repeat split. exists t, b. repeat split; try done. apply list_elem_of_here. }
  assert (∀ s' sent,
            task_docs s' = task_docs s → board_docs s' = board_docs s →
            rooms s' = rooms s →
            notification_docs s' = (notification_docs s ++ [n])%list →
            emitted s' = (emitted s ++ sent)%list →
            Forall (λ e, io = true
                         ∧ emit_event e = "new_notification"
                         ∧ emit_payload e ∈ [n]
                         ∧ emit_room e
                           = "user:" +:+ Notification.userId (emit_payload e))
              sent →
            tick_extends io now [(t, Some b)] s s') as Hext.
  { intros s' sent ? ? ? Hdocs Hem Hsent.
    split; [done|]. split; [done|]. split; [done|].
    exists [n], sent. split; [done|]. split; [done|].
    split; [by apply Forall_singleton|]. split; [done|by apply Hcount]. }
  destruct io; simpl.
  - unfold emit_to. simpl. destruct (faulty (OpEmit _)); simpl.
    + apply (Hext _ []); try done. simpl. by rewrite app_nil_r.
    + apply (Hext _ [mkEmit ("user:" +:+ TaskDoc.userId t)
                       "new_notification" n]); try done.
      apply Forall_singleton. repeat split. apply list_elem_of_here.
  - apply (Hext _ []); try done. simpl. by rewrite app_nil_r.
Qed.

Lemma for_of_extends faulty io now l : ∀ s,
  tick_extends io now l s (for_of (process_task faulty io now) l s).2.
Proof.
  induction l as [|[t ob] l IH]; intros s.
  - by apply tick_extends_refl.
  - simpl. unfold mbind, server_bind.
    pose proof (process_task_extends faulty io now t ob s) as Hx.
    destruct (process_task faulty io now (t, ob) s) as [[[]|e] s1]; simpl in *.
    + eapply tick_extends_trans.
      * eapply tick_extends_mono; [|exact Hx].
        intros y Hy%list_elem_of_singleton. subst. apply list_elem_of_here.
      * eapply tick_extends_mono; [|apply IH].
        intros y Hy. by apply list_elem_of_further.
    + eapply tick_extends_mono; [|exact Hx].
      intros y Hy%list_elem_of_singleton. subst. apply list_elem_of_here.
Qed.

Lemma checkDeadlines_extends faulty next_day io now s :
  (checkDeadlines faulty next_day io now s).1 = Done tt
  ∧ tick_extends io now (due_entries next_day now s) s
      (checkDeadlines faulty next_day io now s).2.
Proof.
  unfold checkDeadlines, catching, mbind, server_bind, Task_find.
  destruct (faulty OpFindTasks); simpl.
  - split; [done|]. by apply tick_extends_refl.
  - fold (due_entries next_day now s).
    pose proof (for_of_extends faulty io now (due_entries next_day now s) s)
      as Hx.
    destruct (for_of (process_task faulty io now) (due_entries next_day now s) s)
      as [[[]|e] s1]; simpl in *; [done|].
    split; [done|]. eapply tick_extends_trans; [exact Hx|].
    by apply tick_extends_refl.
Qed.


(** X11. A tick never fails and never duplicates, whatever fails inside
    it. With any store or transport operation failing, the tick itself
    completes; the tasks, the boards and the rooms are as they were; the
    stored notifications are kept, in order, new ones coming after them;
    and a key that had a [task_deadline] notification has as many as
    before, a key that had none has none or one. *)
Theorem checkDeadlines_never_fails_nor_duplicates faulty next_day io now s :
  let tick := checkDeadlines faulty next_day io now s in
  tick.1 = Done tt
  ∧ task_docs tick.2 = task_docs s
  ∧ board_docs tick.2 = board_docs s
  ∧ rooms tick.2 = rooms s
  ∧ (∃ added, notification_docs tick.2 = (notification_docs s ++ added)%list)
  ∧ ∀ u tid,
      deadline_count u tid tick.2 = deadline_count u tid s
      ∨ (deadline_count u tid s = 0%nat ∧ deadline_count u tid tick.2 = 1%nat).
Proof.
  cbv zeta.
  destruct (checkDeadlines_extends faulty next_day io now s)
    as (Hres & Ht & Hb & Hr & added & sent & Hn & _ & _ & _ & Hc).
  repeat split; try done. by exists added.
Qed.



(** ** The notification store: when a create is refused *)

(** X13. [Notification.create] either stores the document and returns it,
    or fails and leaves the store as it found it. It succeeds exactly when
    the operation itself does not fail, the draft has a [userId], and its
    message is not empty; what is already stored plays no part. *)
Theorem Notification_create_outcome faulty now d s :
  let run := Notification_create faulty now d s in
  let accepted :=
    negb (faulty (OpCreate d))
    && bool_decide (is_Some (Notification.d_userId d))
    && negb (bool_decide (Notification.d_message d = "")) in
  (accepted = true →
   ∃ n, run = (Done n,
               with_notifications s (notification_docs s ++ [n])%list
                 (next_id s + 1))
        ∧ Notification.d_userId d = Some (Notification.userId n)
        ∧ Notification.message n = Notification.d_message d
        ∧ Notification.read n = false
        ∧ Notification.createdAt n = now)
  ∧ (accepted = false → ∃ e, run = (Failed e, s)).
Proof.
  cbv zeta. unfold Notification_create.
  destruct (faulty (OpCreate d)); simpl; [split; [done|eauto]|].
  destruct (Notification.d_userId d) as [uid|]; simpl.
  - destruct (bool_decide (Notification.d_message d = "")); simpl.
    + split; [done|eauto].
    + split; [|done]. intros _. eexists. by repeat split.
  - split; [done|eauto].
Qed.

Lemma Notification_create_refused_witness :
  ∃ e, Notification_create no_faults 0
         (Notification.mkDraft None "Deadline approaching"
            Notification.task_deadline None (Some "t1")) sample_server
       = (Failed e, sample_server).
Proof.
  refine (proj2 (Notification_create_outcome no_faults 0
                   (Notification.mkDraft None "Deadline approaching"
                      Notification.task_deadline None (Some "t1"))
                   sample_server) _).
  reflexivity.
Defined.

(** ** Rooms: what a session is in, after what it asked for *)

Lemma in_room_join sock sock' room room' s :
  in_room sock room (socket_join sock' room' s)
  ↔ in_room sock room s ∨ (room = room' ∧ socket_id sock = socket_id sock').
Proof.
  unfold in_room, socket_join. simpl.
  destruct (decide (room' = room)) as [->|Hne].
  - rewrite lookup_insert_eq. simpl.
    rewrite elem_of_union, elem_of_singleton. intuition.
  - rewrite lookup_insert_ne by done. intuition congruence.
Qed.

Lemma in_room_handle_events sock sock' evs : ∀ s room,
  in_room sock room (handle_events sock' evs s)
  ↔ in_room sock room s
    ∨ (socket_id sock = socket_id sock' ∧ ∃ ev, ev ∈ evs ∧ room = room_of ev).
Proof.
  unfold handle_events. induction evs as [|ev evs IH]; intros s room; simpl.
  - split; [by left|]. intros [?|(_ & ev & Hev & _)]; [done|].
    by apply elem_of_nil in Hev.
  - rewrite IH.
    assert (in_room sock room (on_client_event sock' ev s)
            ↔ in_room sock room s
              ∨ (room = room_of ev ∧ socket_id sock = socket_id sock')) as ->.
    { destruct ev; apply in_room_join. }
    split.
    + intros [[?|[-> ?]]|(? & ev' & Hev' & ->)]; [by left|right|right];
        (split; [done|]); eexists; (split; [|done]);
        [apply list_elem_of_here|by apply list_elem_of_further].
    + intros [?|(Hid & ev' & Hev' & ->)]; [by left; left|].
      apply elem_of_cons in Hev' as [->|Hev']; [left; right; done|].
      right. split; [done|]. by exists ev'.
Qed.

Lemma room_of_inj ev ev' : room_of ev = room_of ev' → ev = ev'.
Proof.
  destruct ev as [a|a], ev' as [b|b]; simpl; intros H;
    try discriminate H.
  - f_equal. by simplify_eq.
  - f_equal. by simplify_eq.
Qed.

(** X14. Rooms follow requests, and only requests. After a session has
    sent any sequence of [join_board] and [join_user] events, a session is
    in a room exactly if it was there before or it is the sender and asked
    for that room. Room names do not collide: asking for board [a] gives
    [board:b] only for [b = a], and never a user room. So a session that
    was in no room and asked for board [a] alone is in [board:a] and in no
    other room. *)
Theorem rooms_follow_requests sock sender evs s room :
  (in_room sock room (handle_events sender evs s)
   ↔ in_room sock room s
     ∨ (socket_id sock = socket_id sender ∧ ∃ ev, ev ∈ evs ∧ room = room_of ev))
  ∧ (∀ ev ev', room_of ev = room_of ev' → ev = ev')
  ∧ ((∀ r, ¬ in_room sender r s) →
     ∀ a r, in_room sender r (handle_events sender [JoinBoard a] s)
            ↔ r = "board:" +:+ a).
Proof.
  split; [apply in_room_handle_events|]. split; [apply room_of_inj|].
  intros Hnone a r. rewrite in_room_handle_events. split.
  - intros [Hin|(_ & ev & Hev & ->)]; [by apply Hnone in Hin|].
    apply list_elem_of_singleton in Hev as ->. done.
  - intros ->. right. split; [done|]. exists (JoinBoard a).
    split; [apply list_elem_of_here|done].
Qed.

Lemma rooms_follow_requests_witness :
  in_room stranger "board:B1"
    (handle_events stranger [JoinBoard "B1"] sample_server).
Proof.
  refine (proj2 (proj2 (proj2 (rooms_follow_requests stranger stranger []
                                 sample_server "")) _ "B1" "board:B1")
            eq_refl).
  intros r. unfold in_room. simpl. rewrite lookup_empty. simpl.
  apply not_elem_of_empty.
Defined.

(** ** Who may do what ([routes/tasks.js]) *)

Lemma existsb_find_some {A} (f g : A → bool) l x :
  List.find f l = Some x → g x = true → existsb (λ y, f y && g y) l = true.
Proof.
  intros Hf Hg. apply find_some in Hf as [Hin Hfx].
  apply existsb_exists. exists x. split; [done|]. by rewrite Hfx, Hg.
Qed.

Lemma isMember_of_admin b user :
  existsb (λ m, bool_decide (Member.id m = Some user)
                && bool_decide (Member.role m = "admin"))
    (BoardDoc.members b) = true →
  isMember b user = true.
Proof.
  unfold isMember. intros H. apply existsb_exists in H as (m & Hin & Hm).
  apply andb_true_iff in Hm as [Hm _].
  apply existsb_exists. by exists m.
Qed.

(** X15. The four access checks are nested: whoever may create or edit a
    task may delete one, whoever may delete may complete, and whoever may
    complete may read the board's tasks. Completing is open to exactly the
    owner and the listed members. *)
Theorem access_checks_are_nested b user :
  (may_write b user = true → may_delete b user = true)
  ∧ (may_delete b user = true → may_complete b user = true)
  ∧ (may_complete b user = true → may_read b user = true)
  ∧ may_complete b user = isMember b user || isOwner b user.
Proof.
  assert (may_complete b user = isMember b user || isOwner b user) as Hc.
  { unfold may_complete.
    destruct (isMember b user) eqn:Hm, (isOwner b user) eqn:Ho; simpl; try done.
    destruct (existsb _ _) eqn:Ha; [|done].
    apply isMember_of_admin in Ha. congruence. }
  split; [|split; [|split; [|exact Hc]]].
  - unfold may_write, may_delete, userMember.
    destruct (isOwner b user); simpl; [done|].
    destruct (List.find _ _) as [m|] eqn:Hf; [|done]. intros Hr.
    by rewrite (existsb_find_some _ (λ m, bool_decide (Member.role m = "admin"))
                  _ m Hf Hr).
  - rewrite Hc. unfold may_delete.
    destruct (isOwner b user); simpl; [by rewrite orb_true_r|].
    rewrite negb_involutive. intros Ha. apply isMember_of_admin in Ha.
    by rewrite Ha.
  - rewrite Hc. unfold may_read.
    destruct (isMember b user), (isOwner b user), (BoardDoc.isPublic b); done.
Qed.

Lemma access_checks_witness : may_read sample_board_doc "u3" = true.
Proof.
  refine (proj1 (proj2 (proj2 (access_checks_are_nested sample_board_doc "u3")))
            _).
  reflexivity.
Defined.

Lemma find_single_filter {A} (f : A → bool) l x :
  List.find f l = Some x → (length (List.filter f l) ≤ 1)%nat →
  List.filter f l = [x].
Proof.
  induction l as [|y l IH]; [done|]. simpl.
  destruct (f y) eqn:Hy; simpl.
  - intros [= ->] Hlen. f_equal.
    destruct (List.filter f l); [done|simpl in Hlen; lia].
  - apply IH.
Qed.

(** X16. Deleting asks less than editing only on a board that lists the
    user more than once: editing looks at the first entry of the user,
    deleting at all of them. When the member list carries the user at most
    once, the two checks agree. *)
Theorem delete_and_write_agree b user :
  (listed b user ≤ 1)%nat →
  may_delete b user = may_write b user.
Proof.
  unfold listed, may_delete, may_write, userMember. intros Hone.
  destruct (isOwner b user); simpl; [done|]. rewrite negb_involutive.
  destruct (List.find _ _) as [m|] eqn:Hf.
  - pose proof (find_single_filter _ _ _ Hf Hone) as Hfil.
    destruct (bool_decide (Member.role m = "admin")) eqn:Hr.
    + by apply (existsb_find_some _ (λ m, bool_decide (Member.role m = "admin"))
                  _ m).
    + apply not_true_is_false. intros Hex.
      apply existsb_exists in Hex as (m' & Hin & Hm').
      apply andb_true_iff in Hm' as [Hid Hrole].
      assert (In m' (List.filter (λ m, bool_decide (Member.id m = Some user))
                       (BoardDoc.members b))) as Hin'
        by (apply filter_In; by split).
      rewrite Hfil in Hin'. destruct Hin' as [->|[]]. congruence.
  - apply not_true_is_false. intros Hex.
    apply existsb_exists in Hex as (m' & Hin & Hm').
    apply andb_true_iff in Hm' as [Hid _].
    by rewrite (find_none _ _ Hf m' Hin) in Hid.
Qed.

Lemma delete_and_write_witness :
  may_delete sample_board_doc "u3" = may_write sample_board_doc "u3".
Proof.
  refine (delete_and_write_agree sample_board_doc "u3" _).
  vm_compute. lia.
Defined.

(** On a board that lists the user twice the two checks part. *)
Example delete_without_write :
  may_delete twice_listed_board "u3" = true
  ∧ may_write twice_listed_board "u3" = false.
Proof. split; reflexivity. Qed.

Lemma restated_members_checks f user (ms : list Member.t) :
  let restated :=
    map (λ m, Member.mk (Member.id m) (Member.name m) (Member.email m)
                (Member.role m) (f m)) ms in
  existsb (λ m, bool_decide (Member.id m = Some user)) restated
  = existsb (λ m, bool_decide (Member.id m = Some user)) ms
  ∧ existsb (λ m, bool_decide (Member.id m = Some user)
                  && bool_decide (Member.role m = "admin")) restated
    = existsb (λ m, bool_decide (Member.id m = Some user)
                    && bool_decide (Member.role m = "admin")) ms
  ∧ match List.find (λ m, bool_decide (Member.id m = Some user)) restated with
    | Some m => bool_decide (Member.role m = "admin")
    | None => false
    end
    = match List.find (λ m, bool_decide (Member.id m = Some user)) ms with
      | Some m => bool_decide (Member.role m = "admin")
      | None => false
      end.
Proof.
  cbv zeta. induction ms as [|m ms (IH1 & IH2 & IH3)]; [done|]. simpl.
  rewrite IH1, IH2. split; [done|]. split; [done|].
  by destruct (bool_decide (Member.id m = Some user)).
Qed.

(** X17. No access check looks at the state of an invitation: a listed
    member whose invitation is still pending, or was rejected, passes
    every check an active member with the same role passes. *)
Theorem access_checks_ignore_invitation_state f b user :
  may_read (with_statuses f b) user = may_read b user
  ∧ may_write (with_statuses f b) user = may_write b user
  ∧ may_delete (with_statuses f b) user = may_delete b user
  ∧ may_complete (with_statuses f b) user = may_complete b user.
Proof.
  destruct (restated_members_checks f user (BoardDoc.members b))
    as (Hm & Ha & Hu).
  unfold may_read, may_write, may_delete, may_complete, isMember, isOwner,
    userMember. simpl. by rewrite Hm, Ha, Hu.
Qed.

(** * The board view *)

Lemma filter_length_perm {A} (f : A → bool) l l' :
  l ≡ₚ l' → length (List.filter f l) = length (List.filter f l').
Proof.
  induction 1 as [|x l l' _ IH|x y l|l1 l2 l3 _ IH1 _ IH2]; simpl.
  - done.
  - destruct (f x); simpl; by rewrite IH.
  - by destruct (f x), (f y).
  - by rewrite IH1.
Qed.

Lemma filter_filter_length {A} (f g : A → bool) l :
  length (List.filter f (List.filter g l))
  = length (List.filter (λ x, f x && g x) l).
Proof.
  induction l as [|x l IH]; [done|]. simpl.
  destruct (g x); simpl; rewrite ?andb_false_r, ?andb_true_r;
    [destruct (f x); simpl; by rewrite IH|done].
Qed.

Lemma filter_and_const {A} (f : A → bool) (c : bool) l :
  length (List.filter (λ x, f x && c) l)
  = if c then length (List.filter f l) else 0%nat.
Proof.
  destruct c.
  - f_equal. apply List.filter_ext. intros x. by rewrite andb_true_r.
  - induction l as [|x l IH]; [done|]. simpl. by rewrite andb_false_r.
Qed.

Lemma filter_length_ext {A} (f g : A → bool) l :
  (∀ x, f x = g x) → length (List.filter f l) = length (List.filter g l).
Proof. intros H. by rewrite (List.filter_ext f g H). Qed.

(** In a well-keyed map the id [k] belongs to the entry at [k] alone. *)
Lemma count_by_key (g : Task.t → bool) k : ∀ m : gmap string Task.t,
  well_keyed m →
  length (List.filter (λ t, bool_decide (Task.id t = Some k) && g t)
            (map_to_list m).*2)
  = if from_option g false (m !! k) then 1%nat else 0%nat.
Proof.
  apply (map_ind (λ m, well_keyed m → _)).
  - intros _. by rewrite map_to_list_empty.
  - intros i x m Hi IH Hwk.
    apply map_Forall_insert in Hwk as [Hx Hm]; [|done].
    etrans.
    { apply (filter_length_perm _ _ ((i, x) :: map_to_list m).*2).
      apply fmap_Permutation. by apply map_to_list_insert. }
    specialize (IH Hm). rewrite fmap_cons.
    change (List.filter ?f (?y :: ?l))
      with (if f y then y :: List.filter f l else List.filter f l).
    cbn [snd]. rewrite Hx. destruct (decide (i = k)) as [->|Hne].
    + rewrite lookup_insert_eq, bool_decide_eq_true_2 by done.
      rewrite Hi in IH. cbn [from_option] in *. rewrite andb_true_l.
      destruct (g x); cbn [length]; by rewrite IH.
    + rewrite lookup_insert_ne by done.
      by rewrite bool_decide_eq_false_2 by congruence.
Qed.

Lemma shown_count_app k l1 l2 :
  shown_count k (l1 ++ l2) = (shown_count k l1 + shown_count k l2)%nat.
Proof. unfold shown_count. by rewrite List.filter_app, length_app. Qed.

Lemma shown_count_cons k x l :
  shown_count k (x :: l)
  = ((if bool_decide (Task.id x = Some k) then 1 else 0) + shown_count k l)%nat.
Proof.
  unfold shown_count. simpl. by destruct (bool_decide (Task.id x = Some k)).
Qed.

Lemma shown_count_store values board tasks col k :
  (∀ m, values m ≡ₚ (map_to_list m).*2) →
  well_keyed tasks →
  shown_count k (storeTasks values board tasks col)
  = if from_option (belongs board col) false (tasks !! k) then 1%nat else 0%nat.
Proof.
  intros values_once Hwk. unfold shown_count, storeTasks.
  rewrite filter_filter_length.
  rewrite (filter_length_perm _ _ _ (values_once tasks)).
  by apply count_by_key.
Qed.

Lemma taskMap_get_some store i :
  is_Some (taskMap_get store i) ↔ shown_count i store ≠ 0%nat.
Proof.
  unfold taskMap_get, shown_count.
  rewrite (filter_length_perm _ store (rev store))
    by (by rewrite reverse_Permutation || apply Permutation_rev).
  induction (rev store) as [|x l IH]; simpl.
  - split; [by intros [? ?]|done].
  - destruct (bool_decide (Task.id x = Some i)); simpl; [|done].
    split; [done|eauto].
Qed.

Lemma taskMap_get_id store i t :
  taskMap_get store i = Some t → Task.id t = Some i.
Proof.
  unfold taskMap_get. intros H. apply find_some in H as [_ H].
  by apply bool_decide_eq_true in H.
Qed.

Lemma shown_count_ordered store ids k :
  shown_count k (ordered_tasks store ids)
  = if bool_decide (shown_count k store ≠ 0%nat) then occurrences k ids
    else 0%nat.
Proof.
  induction ids as [|i ids IH]; [by case_bool_decide|].
  rewrite occurrences_cons.
  change (ordered_tasks store (i :: ids))
    with (match taskMap_get store i with
          | Some t => t :: ordered_tasks store ids
          | None => ordered_tasks store ids
          end).
  destruct (taskMap_get store i) as [t|] eqn:Hget.
  - pose proof (taskMap_get_id _ _ _ Hget) as Hid.
    assert (shown_count i store ≠ 0%nat) as Hi
      by (apply taskMap_get_some; eauto).
    rewrite shown_count_cons, IH, Hid.
    destruct (decide (i = k)) as [->|Hne].
    + by rewrite !bool_decide_eq_true_2 by done.
    + rewrite bool_decide_eq_false_2 by congruence.
      case_bool_decide; lia.
  - rewrite IH. destruct (decide (i = k)) as [->|Hne]; [|case_bool_decide; lia].
    rewrite bool_decide_eq_false_2; [done|].
    intros Hk. apply taskMap_get_some in Hk as [? Hk]. congruence.
Qed.

Lemma shown_count_remaining store ids k :
  shown_count k (remaining_tasks store ids)
  = if bool_decide (k ∈ ids) then 0%nat else shown_count k store.
Proof.
  unfold remaining_tasks, shown_count. rewrite filter_filter_length.
  destruct (decide (shown_count k store = 0%nat)) as [Hz|Hnz].
  - assert (∀ f, length (List.filter
                           (λ x, bool_decide (Task.id x = Some k) && f x) store)
                 = 0%nat) as Hall.
    { intros f. unfold shown_count in Hz.
      induction store as [|x l IH]; [done|]. simpl in *.
      destruct (bool_decide (Task.id x = Some k)); simpl in *; [done|].
      by apply IH. }
    rewrite Hall. unfold shown_count in Hz. rewrite Hz. by case_bool_decide.
  - rewrite (filter_length_ext _
               (λ x, bool_decide (Task.id x = Some k)
                     && negb (bool_decide (k ∈ ids)))).
    + rewrite filter_and_const. by case_bool_decide.
    + intros x. destruct (bool_decide (Task.id x = Some k)) eqn:Hx; [|done].
      apply bool_decide_eq_true in Hx. simpl. unfold processed. rewrite Hx.
      rewrite (bool_decide_eq_true_2 (is_Some _));
        [by rewrite andb_true_r|by apply taskMap_get_some].
Qed.

Lemma occurrences_elem k ids : k ∈ ids ↔ occurrences k ids ≠ 0%nat.
Proof.
  split.
  - intros Hin Hz. by apply occurrences_zero in Hz.
  - intros Hnz. destruct (decide (k ∈ ids)); [done|].
    by apply occurrences_zero in n.
Qed.

(** The number of cards with id [k] in a column the board has. *)
Lemma shown_count_column values board tasks filter col column k :
  (∀ m, values m ≡ₚ (map_to_list m).*2) →
  well_keyed tasks →
  List.find (λ c, bool_decide (Column.id c = col)) (Board.columns board)
  = Some column →
  shown_count k (getColumnTasks values board tasks filter col)
  = if from_option (belongs board col) false (tasks !! k)
       && match filter with
          | None => true
          | Some ids => bool_decide (k ∈ ids)
          end
    then Nat.max 1 (occurrences k (Column.taskIds column))
    else 0%nat.
Proof.
  intros values_once Hwk Hfind. unfold getColumnTasks. rewrite Hfind. cbv zeta.
  assert (shown_count k
            (ordered_tasks (storeTasks values board tasks col)
               (Column.taskIds column)
             ++ remaining_tasks (storeTasks values board tasks col)
                  (Column.taskIds column))
          = if from_option (belongs board col) false (tasks !! k)
            then Nat.max 1 (occurrences k (Column.taskIds column))
            else 0%nat) as Hbase.
  { rewrite shown_count_app, shown_count_ordered, shown_count_remaining.
    rewrite (shown_count_store values) by done.
    destruct (from_option (belongs board col) false (tasks !! k)).
    - rewrite bool_decide_eq_true_2 by done.
      case_bool_decide as Hin.
      + apply occurrences_elem in Hin. lia.
      + assert (occurrences k (Column.taskIds column) = 0%nat) as ->; [|done].
        destruct (decide (occurrences k (Column.taskIds column) = 0%nat));
          [done|]. by apply occurrences_elem in n.
    - rewrite bool_decide_eq_false_2 by (intros H; by apply H).
      by case_bool_decide. }
  destruct filter as [[|i ids]|].
  - rewrite (bool_decide_eq_false_2 (k ∈ [])) by apply not_elem_of_nil.
    by rewrite andb_false_r.
  - unfold shown_count in *. rewrite filter_filter_length.
    rewrite (filter_length_ext _
               (λ x, bool_decide (Task.id x = Some k)
                     && bool_decide (k ∈ i :: ids))).
    + rewrite filter_and_const, Hbase.
      destruct (bool_decide (k ∈ i :: ids));
        by rewrite ?andb_true_r, ?andb_false_r.
    + intros x. destruct (bool_decide (Task.id x = Some k)) eqn:Hx; [|done].
      apply bool_decide_eq_true in Hx. simpl. unfold passes. by rewrite Hx.
  - by rewrite andb_true_r.
Qed.

(** X18. Which cards a column of the board view shows. With every task
    filed under its id, a column that exists shows the card of a task
    exactly when the task's [boardId] is the board's and its [columnId] or
    its [status] is the column's id, and the search filter, if any, lets
    it through: the column's own id list plays no part in that. The list
    only decides the order and the number of copies: a card whose id the
    list carries several times is shown that many times. A column the
    board does not have shows nothing. *)
Theorem getColumnTasks_shows values board tasks filter col k :
  (∀ m, values m ≡ₚ (map_to_list m).*2) →
  well_keyed tasks →
  (List.find (λ c, bool_decide (Column.id c = col)) (Board.columns board) = None →
   getColumnTasks values board tasks filter col = [])
  ∧ ∀ column,
      List.find (λ c, bool_decide (Column.id c = col)) (Board.columns board)
      = Some column →
      shown_count k (getColumnTasks values board tasks filter col)
      = if from_option (belongs board col) false (tasks !! k)
           && match filter with
              | None => true
              | Some ids => bool_decide (k ∈ ids)
              end
        then Nat.max 1 (occurrences k (Column.taskIds column))
        else 0%nat.
Proof.
  intros values_once Hwk. split.
  - intros Hnone. unfold getColumnTasks. by rewrite Hnone.
  - intros column Hfind. by apply shown_count_column.
Qed.

Lemma getColumnTasks_witness :
  shown_count "t1"
    (getColumnTasks values_by_key (sample_board ["t1"; "t9"; "t1"] ["t2"] [])
       (tasks sample_state) None "todo")
  = 2%nat
  ∧ shown_count "t2"
      (getColumnTasks values_by_key (sample_board ["t1"; "t9"; "t1"] ["t2"] [])
         (tasks sample_state) None "todo")
    = 1%nat.
Proof.
  assert (well_keyed (tasks sample_state)) as Hwk by by_evaluation.
  split.
  - etrans.
    + apply (proj2 (getColumnTasks_shows values_by_key
                      (sample_board ["t1"; "t9"; "t1"] ["t2"] [])
                      (tasks sample_state) None "todo" "t1"
                      (λ m, Permutation_refl _) Hwk)
               (Column.mk "todo" "To Do" ["t1"; "t9"; "t1"] 0)).
      reflexivity.
    + vm_compute. reflexivity.
  - vm_compute. reflexivity.
Defined.

Lemma find_moved_column t s d i col cols :
  List.find (λ c, bool_decide (Column.id c = col)) (map (moveColumn t s d i) cols)
  = moveColumn t s d i
      <$> List.find (λ c, bool_decide (Column.id c = col)) cols.
Proof.
  induction cols as [|c cols IH]; [done|]. simpl.
  rewrite moveColumn_id. by destruct (bool_decide (Column.id c = col)).
Qed.

Lemma names_a_column_find d cols :
  names_a_column (Some d) cols
  = bool_decide (is_Some (List.find (λ c, bool_decide (Column.id c = d)) cols)).
Proof.
  unfold names_a_column. induction cols as [|c cols IH].
  - symmetry. apply bool_decide_eq_false_2. by intros [? ?].
  - cbn [existsb List.find]. destruct (decide (Column.id c = d)) as [Hd|Hd].
    + rewrite (bool_decide_eq_true_2 (Column.id c = d)) by done.
      rewrite (bool_decide_eq_true_2 (Some (Column.id c) = Some d))
        by congruence.
      symmetry. apply bool_decide_eq_true_2. eauto.
    + rewrite (bool_decide_eq_false_2 (Column.id c = d)) by done.
      by rewrite (bool_decide_eq_false_2 (Some (Column.id c) = Some d))
        by congruence.
Qed.

Lemma well_keyed_insert k task (m : gmap string Task.t) :
  well_keyed m → Task.id task = Some k → well_keyed (<[k := task]> m).
Proof. intros Hm Hk. by apply map_Forall_insert_2. Qed.

(** X19. Where the board view shows a moved card. Once [moveTask] has run
    on a task of a board of the store, the view of that board shows the
    card exactly once in the destination column, when the board has such a
    column, and in no other column: this holds whatever was passed as the
    source column and wherever the id lists of the columns carried the id
    before, because the view goes by the task's own [columnId] and
    [status]. A destination the board does not have leaves the card in no
    column at all. *)
Theorem moved_card_is_shown_once values t s d i st task bi b :
  (∀ m, values m ≡ₚ (map_to_list m).*2) →
  well_keyed (tasks st) →
  tasks st !! t = Some task →
  boards st !! bi = Some b →
  Some (Board.id b) = Task.boardId task →
  let st' := state_after (moveTask t s d i st) in
  ∃ b', boards st' !! bi = Some b'
        ∧ Board.id b' = Board.id b
        ∧ ∀ col,
            shown_count t (getColumnTasks values b' (tasks st') None col)
            = if bool_decide (col = d)
                 && names_a_column (Some d) (Board.columns b)
              then 1%nat else 0%nat.
Proof.
  intros Hvalues Hwk Ht Hbi Hid st'. subst st'.
  destruct (moveTask_cases t s d i st)
    as [e Hn _|Hn _|task' Ht' Hb|task' b0 Ht' Hb st'];
    unfold state_after; simpl.
  - congruence.
  - congruence.
  - assert (task' = task) as -> by congruence.
    unfold find_board in Hb.
    assert (In b (boards st)) as Hin
      by (by eapply list_elem_of_In, list_elem_of_lookup_2).
    pose proof (find_none _ _ Hb b Hin) as Hb'.
    by apply bool_decide_eq_false in Hb'.
  - assert (task' = task) as -> by congruence.
    assert (Task.id task = Some t) as Htid by (by apply (Hwk t task)).
    exists (on_board (Task.boardId task) (moveColumn t s d i) b).
    split; [by rewrite list_lookup_fmap, Hbi|].
    split; [apply on_board_id|].
    intros col.
    assert (well_keyed (<[t := moved_task task d]> (tasks st))) as Hwk'
      by (apply well_keyed_insert; [done|by rewrite moved_task_id]).
    pose proof (shown_count_column values
                  (on_board (Task.boardId task) (moveColumn t s d i) b)
                  (<[t := moved_task task d]> (tasks st)) None col) as Hsome.
    assert (List.find (λ c, bool_decide (Column.id c = col))
              (Board.columns
                 (on_board (Task.boardId task) (moveColumn t s d i) b))
            = None →
            getColumnTasks values
              (on_board (Task.boardId task) (moveColumn t s d i) b)
              (<[t := moved_task task d]> (tasks st)) None col = []) as Hnone
      by (intros Hno; unfold getColumnTasks; by rewrite Hno).
    rewrite names_a_column_find.
    assert (Board.columns (on_board (Task.boardId task) (moveColumn t s d i) b)
            = map (moveColumn t s d i) (Board.columns b)) as Hcols.
    { unfold on_board. by rewrite bool_decide_eq_false_2 by (intros H; by apply H). }
    rewrite Hcols, find_moved_column in Hnone, Hsome.
    destruct (List.find (λ c, bool_decide (Column.id c = col)) (Board.columns b))
      as [c|] eqn:Hfind; simpl in Hnone, Hsome.
    + rewrite (Hsome _ t Hvalues Hwk' eq_refl).
      rewrite lookup_insert_eq. cbn [from_option].
      unfold belongs. rewrite on_board_id, moved_task_boardId, <- Hid.
      rewrite moved_task_columnId, moved_task_status.
      rewrite (bool_decide_eq_true_2 (Some (Board.id b) = _)) by done.
      rewrite moveColumn_occurrences_moved.
      pose proof (find_some _ _ Hfind) as [_ Hc].
      apply bool_decide_eq_true in Hc.
      destruct (decide (col = d)) as [->|Hne].
      * rewrite Hfind, Hc. by rewrite !bool_decide_eq_true_2 by eauto.
      * rewrite (bool_decide_eq_false_2 (col = d)) by done.
        by rewrite !bool_decide_eq_false_2 by congruence.
    + rewrite Hnone by done.
      destruct (decide (col = d)) as [->|Hne].
      * rewrite Hfind. rewrite bool_decide_eq_true_2 by done.
        rewrite bool_decide_eq_false_2; [done|]. by intros [? ?].
      * by rewrite (bool_decide_eq_false_2 (col = d)) by done.
Qed.

Lemma moved_card_witness :
  ∃ b', boards (state_after
                  (moveTask "t1" "done" "in-progress" 0 sample_state)) !! 0%nat
        = Some b'
        ∧ board_occurrences "t1" b' = 2%nat
        ∧ shown_count "t1"
            (getColumnTasks values_by_key b'
               (tasks (state_after
                         (moveTask "t1" "done" "in-progress" 0 sample_state)))
               None "in-progress")
          = 1%nat
        ∧ shown_count "t1"
            (getColumnTasks values_by_key b'
               (tasks (state_after
                         (moveTask "t1" "done" "in-progress" 0 sample_state)))
               None "todo")
          = 0%nat.
Proof.
  destruct (moved_card_is_shown_once values_by_key "t1" "done" "in-progress" 0
              sample_state (sample_task "t1" "todo") 0
              (sample_board ["t1"; "t2"] [] []))
    as (b' & Hb' & _ & Hshown).
  - intros m. apply Permutation_refl.
  - by_evaluation.
  - vm_compute. reflexivity.
  - reflexivity.
  - reflexivity.
  - exists b'. split; [exact Hb'|]. split.
    + vm_compute in Hb'. injection Hb' as <-. vm_compute. reflexivity.
    + split; [exact (Hshown "in-progress")|exact (Hshown "todo")].
Defined.
